(** * Kubernetes inventory collector: a shallow embedding

    The development follows [collector.py] (class
    [KubernetesInventoryCollector]) and [run_inventory.py] (function [main]).

    - Python values stored in the flat records are [value]s; a record
      ([Dict[str, Any]]) is an association list in insertion order.
    - The control plane (the [kubernetes] client) is an interface
      [ControlPlane] over an abstract cluster state: every call returns a
      value or raises, and may change the cluster state.
    - Methods run in a state-and-exception monad [M]; the state carries the
      cluster, the log of control-plane calls, the file system and what was
      printed. *)

From Stdlib Require Import ZArith Ascii String.
From stdpp Require Import base strings list gmap pretty.

Local Open Scope string_scope.
Local Open Scope list_scope.

(** ** Python values *)

(** What a record field, or an element of a list-valued field, can hold:
    [None], a [str] or an [int]. *)
Inductive atom :=
  | ANone
  | AStr (s : string)
  | AInt (z : Z).

(** A record field: a scalar or a list of scalars (the [processes] field). *)
Inductive value :=
  | VAtom (a : atom)
  | VList (l : list atom).

#[global] Instance atom_eq_dec : EqDecision atom.
Proof. solve_decision. Defined.
#[global] Instance value_eq_dec : EqDecision value.
Proof. solve_decision. Defined.

(** [str(v)] on a scalar. *)
Definition py_str (a : atom) : string :=
  match a with
  | ANone => "None"
  | AStr s => s
  | AInt z => pretty z
  end.

(** The line feed character, and the one-character string ["\n"]. *)
Definition LF : ascii := Ascii.ascii_of_nat 10.
Definition newline : string := String LF "".

(** An attribute that is [None] or a [str], as a record value. *)
Definition opt_atom (o : option string) : atom :=
  match o with
  | Some s => AStr s
  | None => ANone
  end.

(** ** Dictionaries, in insertion order *)

Definition dict (V : Type) := list (string * V).

(** [d.keys()] *)
Definition keys {V} (d : dict V) : list string := d.*1.

(** [d.get(k)]: [None] (here [Datatypes.None]) when the key is absent. *)
Fixpoint dict_get {V} (d : dict V) (k : string) : option V :=
  match d with
  | [] => None
  | (k', v) :: d' => if decide (k' = k) then Some v else dict_get d' k
  end.

(** [d[k] = v]: overwrite in place, or append a new key at the end. *)
Fixpoint dict_set {V} (d : dict V) (k : string) (v : V) : dict V :=
  match d with
  | [] => [(k, v)]
  | (k', v') :: d' =>
      if decide (k' = k) then (k, v) :: d' else (k', v') :: dict_set d' k v
  end.

(** A flat record, [Dict[str, Any]]. *)
Definition record := dict value.

(** ** Exceptions *)

(** The exception classes the two modules tell apart.  Every class is a
    subclass of [Exception].  [collector_ConnectionError] is the class
    defined in collector.py; [builtins_ConnectionError] is Python's builtin
    of the same name (a subclass of [OSError]).  [OtherException] stands for
    any further subclass of [Exception] (a transport error of urllib3, a
    [ValueError], ...). *)
Inductive exn_class :=
  | ApiException
  | ConfigException
  | collector_ConnectionError
  | builtins_ConnectionError
  | RuntimeError
  | AttributeError
  | ValueError
  | OtherException (cls_name : string).

#[global] Instance exn_class_eq_dec : EqDecision exn_class.
Proof. solve_decision. Defined.

(** An exception object: its class and the text of [str(e)]. *)
Record exn := Exn { exn_cls : exn_class; exn_str : string }.

#[global] Instance exn_eq_dec : EqDecision exn.
Proof. solve_decision. Defined.

(** What an [except] clause names. *)
Inductive except_clause :=
  | except_Exception
  | except_class (c : exn_class).

Definition catches (cl : except_clause) (e : exn) : bool :=
  match cl with
  | except_Exception => true
  | except_class c => bool_decide (exn_cls e = c)
  end.

Inductive result (A : Type) :=
  | Ok (a : A)
  | Raise (e : exn).
Arguments Ok {A} a.
Arguments Raise {A} e.

(** ** Objects returned by the control plane

    Any sub-object and any attribute may be [None]; [metadata] is the
    exception: the code dereferences it unconditionally everywhere and every
    listed object carries it. *)

(** A [datetime], known by what [isoformat()] returns for it. *)
Record datetime := { isoformat : string }.

Record V1ObjectMeta := {
  meta_name : option string;
  meta_namespace : option string;
  meta_uid : option string;
  meta_creation_timestamp : option datetime }.

Record V1NodeSystemInfo := {
  kubelet_version : option string;
  os_image : option string;
  container_runtime_version : option string }.

Record V1NodeStatus := { node_info : option V1NodeSystemInfo }.

Record V1Node := {
  node_metadata : V1ObjectMeta;
  node_status : option V1NodeStatus }.

Record V1Container := {
  container_name : option string;
  container_image : option string }.

Record V1PodSpec := {
  spec_node_name : option string;
  spec_service_account_name : option string;
  spec_containers : option (list V1Container) }.

Record V1PodStatus := {
  status_phase : option string;
  status_pod_ip : option string }.

Record V1Pod := {
  pod_metadata : V1ObjectMeta;
  pod_spec : option V1PodSpec;
  pod_status : option V1PodStatus }.

(** ** The control plane *)

(** The calls of the [kubernetes] client the collector makes.  A call is a
    function of the cluster state: it returns or raises, and yields the next
    cluster state. *)
Class ControlPlane (W : Type) := {
  load_incluster_config : W → result () * W;
  load_kube_config : W → result () * W;
  list_node : W → result (list V1Node) * W;
  list_pod_for_all_namespaces : W → result (list V1Pod) * W;
  read_namespaced_pod :
    option string → option string → W → result V1Pod * W;
  connect_get_namespaced_pod_exec :
    option string → option string → list string → option string →
    W → result string * W }.

(** The log of control-plane calls. *)
Inductive call :=
  | LoadInclusterConfig
  | LoadKubeConfig
  | ListNode
  | ListPodForAllNamespaces
  | ReadNamespacedPod (pod_name namespace : option string)
  | PodExec (pod_name namespace : option string) (command : list string)
      (container : option string).

#[global] Instance call_eq_dec : EqDecision call.
Proof. solve_decision. Defined.

Definition is_exec (c : call) : bool :=
  match c with
  | PodExec _ _ _ _ => true
  | _ => false
  end.

(** ** Program state *)

Inductive stream := Stdout | Stderr.

#[global] Instance stream_eq_dec : EqDecision stream.
Proof. solve_decision. Defined.

(** A CSV file, as the table of fields a reader gets back from it: the
    quoting of the [csv] module is the library's and is undone on reading. *)
Definition table := list (list string).

Record state (W : Type) := State {
  world : W;
  calls : list call;
  dirs : gset string;
  files : gmap string table;
  output : list (stream * string) }.
Arguments State {W}.
Arguments world {W}.
Arguments calls {W}.
Arguments dirs {W}.
Arguments files {W}.
Arguments output {W}.

(** ** The monad *)

Definition M (W A : Type) := state W → result A * state W.

Definition ret {W A} (a : A) : M W A := λ st, (Ok a, st).

Definition raise {W A} (e : exn) : M W A := λ st, (Raise e, st).

Definition bind {W A B} (m : M W A) (k : A → M W B) : M W B :=
  λ st, match m st with
        | (Ok a, st') => k a st'
        | (Raise e, st') => (Raise e, st')
        end.

Notation "'let!' x ':=' m 'in' k" := (bind m (λ x, k))
  (at level 10, x name, m at level 100, k at level 200).
Notation "'run!' m 'in' k" := (bind m (λ _, k))
  (at level 10, m at level 100, k at level 200).

(** The first clause that catches the exception. *)
Fixpoint find_handler {W A}
    (hs : list (except_clause * (exn → M W A))) (e : exn)
    : option (M W A) :=
  match hs with
  | [] => None
  | (cl, h) :: hs' => if catches cl e then Some (h e) else find_handler hs' e
  end.

(** [try: body  except C1 as e: h1  except C2 as e: h2 ...]: the effects of
    the body up to the [raise] stay. *)
Definition try_except {W A} (body : M W A)
    (hs : list (except_clause * (exn → M W A))) : M W A :=
  λ st, match body st with
        | (Ok a, st') => (Ok a, st')
        | (Raise e, st') =>
            match find_handler hs e with
            | Some h => h st'
            | None => (Raise e, st')
            end
        end.

(** A [for] loop over a list that updates local variables [acc]. *)
Fixpoint for_each {W X Acc} (xs : list X) (body : Acc → X → M W Acc)
    (acc : Acc) : M W Acc :=
  match xs with
  | [] => ret acc
  | x :: xs' => let! acc' := body acc x in for_each xs' body acc'
  end.

(** [o.attr] where [o] may be [None]. *)
Definition getattr {W A} (o : option A) (attr : string) : M W A :=
  match o with
  | Some a => ret a
  | None =>
      raise (Exn AttributeError
               ("'NoneType' object has no attribute '" +:+ attr +:+ "'"))
  end.

(** [print(text, file=s)] *)
Definition print {W} (s : stream) (text : string) : M W () :=
  λ st, (Ok (), State (world st) (calls st) (dirs st) (files st)
                  (output st ++ [(s, text)])).

(** A control-plane call: logged, then answered by the cluster. *)
Definition api_call {W A} (c : call) (f : W → result A * W) : M W A :=
  λ st, let '(r, w') := f (world st) in
        (r, State w' (calls st ++ [c]) (dirs st) (files st) (output st)).

(** ** Strings *)

(** [c.isspace()] for a character below 256. *)
Definition py_isspace (c : ascii) : bool :=
  let n := Ascii.nat_of_ascii c in
  Nat.leb 9 n && Nat.leb n 13 || Nat.leb 28 n && Nat.leb n 32
  || Nat.eqb n 133 || Nat.eqb n 160.

Fixpoint lstrip (s : string) : string :=
  match s with
  | String c s' => if py_isspace c then lstrip s' else s
  | EmptyString => EmptyString
  end.

Definition rstrip (s : string) : string := String.rev (lstrip (String.rev s)).

(** [s.strip()] *)
Definition strip (s : string) : string := rstrip (lstrip s).

(** [s.split("\n")]: never empty; the empty string splits to one empty
    line. *)
Fixpoint split_newline (s : string) : list string :=
  match s with
  | EmptyString => [EmptyString]
  | String c s' =>
      if decide (c = LF) then EmptyString :: split_newline s'
      else match split_newline s' with
           | l :: ls => String c l :: ls
           | [] => [String c EmptyString]
           end
  end.

(** Truth value of a [str]. *)
Definition nonempty (s : string) : bool := negb (bool_decide (s = "")).

(** [[line.strip() for line in resp.split("\n") if line.strip()]] *)
Definition parse_ps (resp : string) : list string :=
  omap (λ line, if nonempty (strip line) then Some (strip line) else None)
       (split_newline resp).

(** [s.endswith("/")] *)
Definition ends_with_slash (s : string) : bool :=
  String.prefix "/" (String.rev s).

(** [os.path.join(a, b)] of posixpath, for two arguments. *)
Definition os_path_join (a b : string) : string :=
  if String.prefix "/" b then b
  else if bool_decide (a = "") || ends_with_slash a then a +:+ b
  else a +:+ "/" +:+ b.

(** The leading directories of a path: its non-empty proper prefixes that
    are followed by a slash. *)
Fixpoint leading_dirs_from (done rest : string) : list string :=
  match rest with
  | EmptyString => []
  | String c rest' =>
      (if bool_decide (c = "/"%char) && nonempty done then [done] else [])
      ++ leading_dirs_from (done +:+ String c EmptyString) rest'
  end.

Definition leading_dirs (path : string) : list string :=
  leading_dirs_from "" path.

(** ** File system

    Directories are known by their path strings and files by theirs; the
    store is total: permissions and disk space are outside the model. *)

(** [os.makedirs(path, exist_ok=True)]: the directory and its leading
    directories exist afterwards; one that exists already is left alone. *)
Definition makedirs {W} (path : string) : M W () :=
  λ st, (Ok (), State (world st) (calls st)
                  (dirs st ∪ list_to_set (leading_dirs path) ∪ {[path]})
                  (files st) (output st)).

(** [open(filename, "w", newline="")]: the file is created or truncated. *)
Definition open_w {W} (filename : string) : M W () :=
  λ st, (Ok (), State (world st) (calls st) (dirs st)
                  (<[filename := []]> (files st)) (output st)).

(** The field the [csv] writer stores for a cell: [None] is the empty
    field, a [str] is itself, anything else goes through [str()]. *)
Definition csv_field (a : atom) : string :=
  match a with
  | ANone => ""
  | AStr s => s
  | AInt z => pretty z
  end.

(** [csv.writer(f).writerow(cells)] on the open file: one more row. *)
Definition writer_writerow {W} (filename : string) (cells : list atom)
    : M W () :=
  λ st, (Ok (), State (world st) (calls st) (dirs st)
                  (alter (λ t, t ++ [csv_field <$> cells]) filename (files st))
                  (output st)).

(** [csv.DictWriter(f, fieldnames).writerow(rowdict)], with the defaults
    [restval=""] and [extrasaction="raise"]: a key of [rowdict] that is not a
    field name raises [ValueError]; a field name [rowdict] lacks is written
    as [restval]. *)
Definition DictWriter_writerow {W} (filename : string)
    (fieldnames : list string) (rowdict : dict atom) : M W () :=
  let wrong_fields :=
    filter (λ k, k ∉ fieldnames) (keys rowdict) in
  match wrong_fields with
  | _ :: _ =>
      raise (Exn ValueError "dict contains fields not in fieldnames")
  | [] =>
      writer_writerow filename
        ((λ key, default (AStr "") (dict_get rowdict key)) <$> fieldnames)
  end.

(** [dict(zip(ks, vs))] *)
Definition dict_of_zip {V} (ks : list string) (vs : list V) : dict V :=
  foldl (λ d kv, dict_set d kv.1 kv.2) [] (zip ks vs).

(** [DictWriter.writeheader()] *)
Definition DictWriter_writeheader {W} (filename : string)
    (fieldnames : list string) : M W () :=
  DictWriter_writerow filename fieldnames
    (dict_of_zip fieldnames (AStr <$> fieldnames)).

(** ** collector.py: [KubernetesInventoryCollector] *)

Section Collector.
Context {W : Type} `{ControlPlane W}.

(** [x if o else None], for an optional sub-object [o]. *)
Definition if_present {A} (o : option A) (f : A → option string) : atom :=
  match o with
  | Some a => opt_atom (f a)
  | None => ANone
  end.

(** [_connect]: in-cluster configuration first, the kubeconfig when that
    raises [ConfigException]; whatever is raised becomes the collector's
    own [ConnectionError]. *)
Definition _connect : M W () :=
  try_except
    (run! try_except
            (api_call LoadInclusterConfig load_incluster_config)
            [(except_class ConfigException,
              λ _, api_call LoadKubeConfig load_kube_config)] in
     ret ())
    [(except_Exception,
      λ e, raise (Exn collector_ConnectionError
                    ("Failed to connect to Kubernetes cluster: "
                     +:+ exn_str e)))].

(** The dictionary built in the loop of [collect_nodes];
    [node.status.node_info] raises when [node.status] is [None]. *)
Definition node_record (node : V1Node) : M W record :=
  let metadata := node_metadata node in
  let! status := getattr (node_status node) "node_info" in
  ret [("name", VAtom (opt_atom (meta_name metadata)));
       ("uid", VAtom (opt_atom (meta_uid metadata)));
       ("creation_timestamp",
        VAtom (if_present (meta_creation_timestamp metadata)
                 (λ t, Some (isoformat t))));
       ("kubernetes_version",
        VAtom (if_present (node_info status) kubelet_version));
       ("os_image", VAtom (if_present (node_info status) os_image));
       ("container_runtime",
        VAtom (if_present (node_info status) container_runtime_version))].

Definition collect_nodes : M W (list record) :=
  try_except
    (let! nodes := api_call ListNode list_node in
     for_each nodes
       (λ result node,
          let! r := node_record node in ret (result ++ [r]))
       [])
    [(except_class ApiException,
      λ e, raise (Exn RuntimeError ("Failed to list nodes: " +:+ exn_str e)))].

(** The dictionary built in the loop of [collect_pods]. *)
Definition pod_record (pod : V1Pod) : record :=
  let metadata := pod_metadata pod in
  [("name", VAtom (opt_atom (meta_name metadata)));
   ("namespace", VAtom (opt_atom (meta_namespace metadata)));
   ("uid", VAtom (opt_atom (meta_uid metadata)));
   ("node_name", VAtom (if_present (pod_spec pod) spec_node_name));
   ("service_account",
    VAtom (if_present (pod_spec pod) spec_service_account_name));
   ("status", VAtom (if_present (pod_status pod) status_phase));
   ("pod_ip", VAtom (if_present (pod_status pod) status_pod_ip))].

Definition collect_pods : M W (list record) :=
  try_except
    (let! pods := api_call ListPodForAllNamespaces
                    list_pod_for_all_namespaces in
     for_each pods (λ result pod, ret (result ++ [pod_record pod])) [])
    [(except_class ApiException,
      λ e, raise (Exn RuntimeError ("Failed to list pods: " +:+ exn_str e)))].

(** The containers the loops run over: none when
    [not pod.spec or not pod.spec.containers]. *)
Definition declared_containers (pod : V1Pod) : list V1Container :=
  match pod_spec pod with
  | Some spec => default [] (spec_containers spec)
  | None => []
  end.

(** The dictionary built in the inner loop of [collect_containers]. *)
Definition container_record (pod : V1Pod) (container : V1Container)
    : record :=
  [("name", VAtom (opt_atom (container_name container)));
   ("image", VAtom (opt_atom (container_image container)));
   ("pod_name", VAtom (opt_atom (meta_name (pod_metadata pod))));
   ("namespace", VAtom (opt_atom (meta_namespace (pod_metadata pod))));
   ("node_name", VAtom (if_present (pod_spec pod) spec_node_name))].

Definition collect_containers : M W (list record) :=
  try_except
    (let! pods := api_call ListPodForAllNamespaces
                    list_pod_for_all_namespaces in
     for_each pods
       (λ result pod,
          match declared_containers pod with
          | [] => ret result
          | containers =>
              for_each containers
                (λ result container,
                   ret (result ++ [container_record pod container]))
                result
          end)
       [])
    [(except_class ApiException,
      λ e, raise (Exn RuntimeError
                    ("Failed to list containers: " +:+ exn_str e)))].

(** [not container_name]: [None] or the empty string. *)
Definition not_given (container_name : option string) : bool :=
  match container_name with
  | Some s => negb (nonempty s)
  | None => true
  end.

(** The container [collect_processes] execs into: the one asked for, the
    first declared one when none is. *)
Definition target_container (asked : option string)
    (first : V1Container) : option string :=
  if not_given asked then container_name first else asked.

(** The [try] block of [collect_processes]. *)
Definition collect_processes_body
    (pod_name namespace container_name : option string)
    : M W (list string) :=
  let! pod := api_call (ReadNamespacedPod pod_name namespace)
                (read_namespaced_pod pod_name namespace) in
  match declared_containers pod with
  | [] => ret []
  | first :: _ =>
      let container_name := target_container container_name first in
      let! status := getattr (pod_status pod) "phase" in
      if negb (bool_decide (status_phase status = Some "Running"))
      then ret []
      else
        let exec_command := ["ps"; "aux"] in
        let! resp :=
          api_call (PodExec pod_name namespace exec_command container_name)
            (connect_get_namespaced_pod_exec pod_name namespace
               exec_command container_name) in
        ret (parse_ps resp)
  end.

Definition collect_processes
    (pod_name namespace container_name : option string)
    : M W (list string) :=
  try_except (collect_processes_body pod_name namespace container_name)
    [(except_class ApiException, λ _, ret []);
     (except_Exception, λ _, ret [])].

(** The dictionary appended by [collect_all_processes]. *)
Definition process_snapshot (pod : V1Pod) (container : V1Container)
    (processes : list string) : record :=
  [("pod_name", VAtom (opt_atom (meta_name (pod_metadata pod))));
   ("namespace", VAtom (opt_atom (meta_namespace (pod_metadata pod))));
   ("container_name", VAtom (opt_atom (container_name container)));
   ("processes", VList (AStr <$> processes))].

Definition collect_all_processes : M W (list record) :=
  try_except
    (let! pods := api_call ListPodForAllNamespaces
                    list_pod_for_all_namespaces in
     for_each pods
       (λ result pod,
          let! status := getattr (pod_status pod) "phase" in
          if negb (bool_decide (status_phase status = Some "Running"))
          then ret result
          else
            match declared_containers pod with
            | [] => ret result
            | containers =>
                for_each containers
                  (λ result container,
                     let! processes :=
                       collect_processes
                         (meta_name (pod_metadata pod))
                         (meta_namespace (pod_metadata pod))
                         (container_name container) in
                     ret (result
                          ++ [process_snapshot pod container processes]))
                  result
            end)
       [])
    [(except_class ApiException,
      λ e, raise (Exn RuntimeError
                    ("Failed to collect processes: " +:+ exn_str e)))].

(** The value stored in the row for one field: [item.get(field)], a list
    joined with newlines. *)
Definition flatten_value (value : option value) : atom :=
  match value with
  | Some (VList l) => AStr (String.concat newline (py_str <$> l))
  | Some (VAtom a) => a
  | None => ANone
  end.

(** The [row] dictionary built by the loop over [fieldnames]. *)
Definition export_row (fieldnames : list string) (item : record)
    : dict atom :=
  foldl (λ row field,
           dict_set row field (flatten_value (dict_get item field)))
        [] fieldnames.

Definition export_csv (data : dict (list record)) (output_dir : string)
    : M W () :=
  run! makedirs output_dir in
  for_each data
    (λ _ entry,
       let key := entry.1 in
       let items := entry.2 in
       match items with
       | [] => ret ()
       | first :: _ =>
           let filename := os_path_join output_dir (key +:+ ".csv") in
           let fieldnames := keys first in
           run! open_w filename in
           run! DictWriter_writeheader filename fieldnames in
           run! for_each items
                  (λ _ item,
                     DictWriter_writerow filename fieldnames
                       (export_row fieldnames item))
                  () in
           print Stdout
             ("Exported " +:+ pretty (length items) +:+ " " +:+ key
              +:+ " to " +:+ filename)
       end)
    ().
End Collector.

(** ** run_inventory.py *)

(** The parsed command line. *)
Record Args := { output_dir : string; include_processes : bool }.

Section RunInventory.
Context {W : Type} `{ControlPlane W}.

(** The body of the [try] block of [main]; it ends with exit status 0. *)
Definition main_body (args : Args) : M W Z :=
  run! print Stdout "Connecting to Kubernetes cluster..." in
  run! _connect in
  run! print Stdout "Collecting nodes..." in
  let! nodes := collect_nodes in
  run! print Stdout ("  Found " +:+ pretty (length nodes) +:+ " nodes") in
  run! print Stdout "Collecting pods..." in
  let! pods := collect_pods in
  run! print Stdout ("  Found " +:+ pretty (length pods) +:+ " pods") in
  run! print Stdout "Collecting containers..." in
  let! containers := collect_containers in
  run! print Stdout
         ("  Found " +:+ pretty (length containers) +:+ " containers") in
  let data : dict (list record) :=
    [("nodes", nodes); ("pods", pods); ("containers", containers)] in
  let! data :=
    if include_processes args then
      run! print Stdout
             "Collecting processes from running containers..." in
      let! processes := collect_all_processes in
      run! print Stdout
             ("  Collected processes from " +:+ pretty (length processes)
              +:+ " containers") in
      ret (dict_set data "processes" processes)
    else ret data in
  run! print Stdout
         (newline +:+ "Exporting CSV files to " +:+ output_dir args
          +:+ "...") in
  run! export_csv data (output_dir args) in
  run! print Stdout (newline +:+ "Inventory collection complete!") in
  ret 0%Z.

(** The handler of [except ConnectionError]; it ends in [sys.exit(1)]. *)
Definition connection_failure_handler (e : exn) : M W Z :=
  run! print Stderr ("Error: " +:+ exn_str e) in
  run! print Stdout (newline +:+ "Make sure you have:") in
  run! print Stdout "  - Valid kubeconfig file, or" in
  run! print Stderr
         "  - GOOGLE_APPLICATION_CREDENTIALS environment variable set" in
  ret 1%Z.

(** The handler of [except Exception]; it ends in [sys.exit(1)]. *)
Definition generic_failure_handler (e : exn) : M W Z :=
  run! print Stderr ("Error: " +:+ exn_str e) in
  ret 1%Z.

(** [main], after the command line is parsed; the value is the exit
    status.  run_inventory.py imports only [KubernetesInventoryCollector]
    from [collector], so the name [ConnectionError] of its first [except]
    clause is the builtin one. *)
Definition main (args : Args) : M W Z :=
  try_except (main_body args)
    [(except_class builtins_ConnectionError, connection_failure_handler);
     (except_Exception, generic_failure_handler)].
End RunInventory.

(** ** A scripted cluster

    A cluster whose answers are fixed functions of the arguments; used to
    run the code on concrete inputs. *)

Record Script := {
  sc_incluster : result ();
  sc_kubeconfig : result ();
  sc_nodes : result (list V1Node);
  sc_pods : result (list V1Pod);
  sc_read : option string → option string → result V1Pod;
  sc_exec : option string → option string → list string → option string →
            result string }.

#[global] Instance Script_ControlPlane : ControlPlane Script := {
  load_incluster_config w := (sc_incluster w, w);
  load_kube_config w := (sc_kubeconfig w, w);
  list_node w := (sc_nodes w, w);
  list_pod_for_all_namespaces w := (sc_pods w, w);
  read_namespaced_pod pod_name namespace w := (sc_read w pod_name namespace, w);
  connect_get_namespaced_pod_exec pod_name namespace command container w :=
    (sc_exec w pod_name namespace command container, w) }.

(** The state a run starts from: nothing called, written or printed. *)
Definition init_state {W} (w : W) : state W := State w [] ∅ ∅ [].

Module Sample.
Definition meta (name namespace : string) : V1ObjectMeta :=
  {| meta_name := Some name; meta_namespace := Some namespace;
     meta_uid := Some ("uid-" +:+ name); meta_creation_timestamp := None |}.

Definition container (name image : string) : V1Container :=
  {| container_name := Some name; container_image := Some image |}.

Definition pod (name phase : string) (cs : list V1Container) : V1Pod :=
  {| pod_metadata := meta name "default";
     pod_spec := Some {| spec_node_name := Some "node-1";
                         spec_service_account_name := Some "default";
                         spec_containers := Some cs |};
     pod_status := Some {| status_phase := Some phase;
                           status_pod_ip := None |} |}.

(** A running pod with two containers and a finished one with one. *)
Definition web : V1Pod :=
  pod "web" "Running" [container "app" "nginx"; container "sidecar" "envoy"].
Definition job : V1Pod := pod "job" "Succeeded" [container "task" "busybox"].

(** A pod without spec, and one whose status sub-object is absent. *)
Definition bare : V1Pod :=
  {| pod_metadata := meta "bare" "default"; pod_spec := None;
     pod_status := Some {| status_phase := Some "Pending";
                           status_pod_ip := None |} |}.
Definition no_status : V1Pod :=
  {| pod_metadata := meta "ghost" "default";
     pod_spec := pod_spec web; pod_status := None |}.

(** A node with its status, and one whose status sub-object is absent. *)
Definition node1 : V1Node :=
  {| node_metadata := meta "node-1" "";
     node_status := Some {| node_info := None |} |}.
Definition node_no_status : V1Node :=
  {| node_metadata := meta "node-2" ""; node_status := None |}.

Definition ps_output : string :=
  "PID USER COMMAND" +:+ newline +:+ "  1 root nginx " +:+ newline.

(** Exec works in [app] and fails in every other container. *)
Definition cluster : Script :=
  {| sc_incluster := Ok ();
     sc_kubeconfig := Ok ();
     sc_nodes := Ok [node1];
     sc_pods := Ok [web; job; bare];
     sc_read := λ pod_name _,
       if bool_decide (pod_name = Some "web") then Ok web
       else if bool_decide (pod_name = Some "job") then Ok job
       else Raise (Exn ApiException "(404) Not Found");
     sc_exec := λ _ _ _ container,
       if bool_decide (container = Some "app") then Ok ps_output
       else Raise (Exn ApiException "(500) exec failed") |}.

(** The same cluster when neither credential source works. *)
Definition unreachable : Script :=
  {| sc_incluster := Raise (Exn ConfigException "Service host/port is not set.");
     sc_kubeconfig := Raise (Exn ConfigException "Invalid kube-config file.");
     sc_nodes := sc_nodes cluster; sc_pods := sc_pods cluster;
     sc_read := sc_read cluster; sc_exec := sc_exec cluster |}.
(** The cluster when a node, and a pod, come without status sub-object. *)
Definition statusless : Script :=
  {| sc_incluster := Ok (); sc_kubeconfig := Ok ();
     sc_nodes := Ok [node1; node_no_status];
     sc_pods := Ok [web; no_status];
     sc_read := sc_read cluster; sc_exec := sc_exec cluster |}.

(** The cluster when the list calls time out in the transport layer, and
    when the API server refuses them. *)
Definition timeout : exn :=
  Exn (OtherException "urllib3.exceptions.MaxRetryError")
      "HTTPSConnectionPool: Max retries exceeded".
Definition forbidden : exn := Exn ApiException "(403) Forbidden".

Definition failing_lists (e : exn) : Script :=
  {| sc_incluster := Ok (); sc_kubeconfig := Ok ();
     sc_nodes := Raise e; sc_pods := Raise e;
     sc_read := sc_read cluster; sc_exec := sc_exec cluster |}.
End Sample.


(** ** Notions used in the statements *)

(** The state after one control-plane call [c] that left the cluster in
    [w']: the call is logged, nothing else changes. *)
Definition logged {W} (c : call) (w' : W) (st : state W) : state W :=
  State w' (calls st ++ [c]) (dirs st) (files st) (output st).

(** The phase of a pod, absent when the status sub-object is. *)
Definition phase_of (pod : V1Pod) : option string :=
  pod_status pod ≫= status_phase.

Definition is_running (pod : V1Pod) : bool :=
  bool_decide (phase_of pod = Some "Running").

(** The (pod, container) pairs process inspection visits, in order. *)
Definition running_targets (pods : list V1Pod)
    : list (V1Pod * V1Container) :=
  pods ≫= λ pod,
    if is_running pod then (λ c, (pod, c)) <$> declared_containers pod
    else [].

(** [inspected st targets outcomes st']: calling [collect_processes] on
    each target in turn, from [st], returns [outcomes] and ends in [st']. *)
Inductive inspected {W} `{ControlPlane W}
    : state W → list (V1Pod * V1Container) → list (list string) →
      state W → Prop :=
  | inspected_nil st : inspected st [] [] st
  | inspected_cons st pod c lines st1 targets outcomes st2 :
      collect_processes (meta_name (pod_metadata pod))
        (meta_namespace (pod_metadata pod)) (container_name c) st
      = (Ok lines, st1) →
      inspected st1 targets outcomes st2 →
      inspected st ((pod, c) :: targets) (lines :: outcomes) st2.

(** The cell the export is to show for [field] of [item]: a list joined
    with newlines, nothing for an absent value, the string form otherwise. *)
Definition rendered_cell (item : record) (field : string) : string :=
  match dict_get item field with
  | Some (VList l) => String.concat newline (py_str <$> l)
  | Some (VAtom ANone) | None => ""
  | Some (VAtom a) => py_str a
  end.

(** One row: the cells of [item] for the header fields, in header order. *)
Definition rendered_row (header : list string) (item : record)
    : list string :=
  rendered_cell item <$> header.

(** The table of a record set: the field names of the first record, then
    one row per record. *)
Definition csv_table (items : list record) : table :=
  match items with
  | [] => []
  | first :: _ => keys first :: (rendered_row (keys first) <$> items)
  end.

(** The file of a category. *)
Definition csv_path (output_dir key : string) : string :=
  os_path_join output_dir (key +:+ ".csv").

(** Whether an entry of the exported mapping writes to [filename]. *)
Definition writes_to (output_dir filename : string)
    (entry : string * list record) : bool :=
  match entry.2 with
  | [] => false
  | _ :: _ => bool_decide (csv_path output_dir entry.1 = filename)
  end.

(** The files after the loop of [export_csv] has run over [data]. *)
Definition exported_files (output_dir : string) (data : dict (list record))
    (fs : gmap string table) : gmap string table :=
  foldl (λ fs entry,
           match entry.2 with
           | [] => fs
           | _ :: _ =>
               <[csv_path output_dir entry.1 := csv_table entry.2]> fs
           end)
        fs data.

(** What the loop of [export_csv] prints. *)
Definition export_messages (output_dir : string) (data : dict (list record))
    : list (stream * string) :=
  data ≫= λ entry,
    match entry.2 with
    | [] => []
    | _ :: _ =>
        [(Stdout, "Exported " +:+ pretty (length entry.2) +:+ " " +:+ entry.1
                  +:+ " to " +:+ csv_path output_dir entry.1)]
    end.

(** What an exception raised by a list call becomes: an [ApiException] is
    wrapped into a [RuntimeError], anything else passes unchanged. *)
Definition wrapped (prefix : string) (e : exn) : exn :=
  if bool_decide (exn_cls e = ApiException)
  then Exn RuntimeError (prefix +:+ exn_str e)
  else e.


(** The dictionary built by assigning [g field] to every [field] of a
    list in turn, as both [export_row] and the header dictionary are. *)
Definition assign_all {V} (g : string → V) (fields : list string)
    (d : dict V) : dict V :=
  foldl (λ row field, dict_set row field (g field)) d fields.

(** The state with other files. *)
Definition with_files {W} (st : state W) (fs : gmap string table) : state W :=
  State (world st) (calls st) (dirs st) fs (output st).

(** The snapshot of a target. *)
Definition snapshot_of (t : V1Pod * V1Container) (lines : list string)
    : record :=
  process_snapshot t.1 t.2 lines.

(** ** Frame conditions

    What a computation leaves alone is a relation between the state before
    and the state after, kept whether the computation returns or raises. *)

Definition keeps {W A} (R : relation (state W)) (m : M W A) : Prop :=
  ∀ st r st', m st = (r, st') → R st st'.


(** Directories, files and printed output are as before. *)
Definition same_store {W} (st st' : state W) : Prop :=
  dirs st' = dirs st ∧ files st' = files st ∧ output st' = output st.

(** Directories and files are as before. *)
Definition same_files {W} (st st' : state W) : Prop :=
  dirs st' = dirs st ∧ files st' = files st.

(** The cluster and the log of calls are as before. *)
Definition same_cluster {W} (st st' : state W) : Prop :=
  world st' = world st ∧ calls st' = calls st.

(** The calls made in between all satisfy [P]. *)
Definition calls_more {W} (P : call → Prop) (st st' : state W) : Prop :=
  ∃ cs, calls st' = calls st ++ cs ∧ Forall P cs.

(** Every file outside [paths] is as before. *)
Definition files_outside {W} (paths : list string) (st st' : state W)
    : Prop :=
  ∀ p, p ∉ paths → files st' !! p = files st !! p.

(** The calls that concern one pod: reading it and exec-ing into it. *)
Definition is_pod_call (c : call) : bool :=
  match c with
  | ReadNamespacedPod _ _ | PodExec _ _ _ _ => true
  | _ => false
  end.

Definition is_read (c : call) : bool :=
  match c with
  | ReadNamespacedPod _ _ => true
  | _ => false
  end.

(** ** Shapes of strings *)

(** No line feed anywhere in the string. *)
Fixpoint LF_free (s : string) : bool :=
  match s with
  | EmptyString => true
  | String c s' => negb (bool_decide (c = LF)) && LF_free s'
  end.

(** The string does not begin with white space. *)
Definition starts_clean (s : string) : bool :=
  match s with
  | EmptyString => true
  | String c _ => negb (py_isspace c)
  end.

(** The string does not end with white space. *)
Definition ends_clean (s : string) : bool := starts_clean (String.rev s).

(** The record [collect_nodes] builds for a node whose status sub-object is
    [status]. *)
Definition node_row (node : V1Node) (status : V1NodeStatus) : record :=
  [("name", VAtom (opt_atom (meta_name (node_metadata node))));
   ("uid", VAtom (opt_atom (meta_uid (node_metadata node))));
   ("creation_timestamp",
    VAtom (if_present (meta_creation_timestamp (node_metadata node))
             (λ t, Some (isoformat t))));
   ("kubernetes_version",
    VAtom (if_present (node_info status) kubelet_version));
   ("os_image", VAtom (if_present (node_info status) os_image));
   ("container_runtime",
    VAtom (if_present (node_info status) container_runtime_version))].

(** The error of an attribute access on [None]. *)
Definition attribute_error (attr : string) : exn :=
  Exn AttributeError ("'NoneType' object has no attribute '" +:+ attr +:+ "'").

(** The table the last category writing to [p] leaves there, if any
    category does. *)
Definition last_write (output_dir p : string) (data : dict (list record))
    : option table :=
  foldl (λ acc entry,
           if writes_to output_dir p entry then Some (csv_table entry.2)
           else acc)
        None data.


(** [Q] holds of the value and the state with which [m] returns. *)
Definition returns_with {W A} (Q : A → state W → Prop) (m : M W A) : Prop :=
  ∀ st a st', m st = (Ok a, st') → Q a st'.

(** The categories [main] exports, and their files. *)
Definition category_names (with_processes : bool) : list string :=
  if with_processes then ["nodes"; "pods"; "containers"; "processes"]
  else ["nodes"; "pods"; "containers"].

Definition category_paths (output_dir : string) (with_processes : bool)
    : list string :=
  csv_path output_dir <$> category_names with_processes.

(** The calls that load credentials. *)
Definition is_config_call (c : call) : bool :=
  match c with
  | LoadInclusterConfig | LoadKubeConfig => true
  | _ => false
  end.

(** * Proofs *)

(** ** The monad *)

Lemma api_call_ok {W A} (c : call) (f : W → result A * W) st r w' :
  f (world st) = (r, w') → api_call c f st = (r, logged c w' st).
Proof. intros Hf. unfold api_call, logged. by rewrite Hf. Qed.

Lemma for_each_app {W X Acc} (xs ys : list X) (body : Acc → X → M W Acc)
    acc st :
  for_each (xs ++ ys) body acc st =
  match for_each xs body acc st with
  | (Ok acc', st') => for_each ys body acc' st'
  | (Raise e, st') => (Raise e, st')
  end.
Proof.
  revert acc st. induction xs as [|x xs IH]; intros acc st; simpl.
  - done.
  - unfold bind. destruct (body acc x st) as [[acc'|e] st']; [apply IH|done].
Qed.

Lemma for_each_cons {W X Acc} x (xs : list X) (body : Acc → X → M W Acc)
    acc st :
  for_each (x :: xs) body acc st =
  match body acc x st with
  | (Ok acc', st') => for_each xs body acc' st'
  | (Raise e, st') => (Raise e, st')
  end.
Proof. done. Qed.

(** A loop whose body only appends a computed element cannot raise. *)
Lemma for_each_append {W X R} (xs : list X) (f : X → R) (result : list R)
    (st : state W) :
  for_each xs (λ result x, ret (result ++ [f x])) result st
  = (Ok (result ++ (f <$> xs)), st).
Proof.
  revert result. induction xs as [|x xs IH]; intros result; simpl.
  - by rewrite app_nil_r.
  - unfold bind, ret. rewrite IH. by rewrite <- app_assoc.
Qed.

(** ** [collect_processes] *)

Section ProcessInspector.
Context {W : Type} `{ControlPlane W}.

(** Whatever the [try] block does, the handlers turn it into a return:
    its value when it returns, the empty list when it raises. *)
Lemma collect_processes_catches pod_name namespace container_name
    (st : state W) :
  collect_processes pod_name namespace container_name st =
  match collect_processes_body pod_name namespace container_name st with
  | (Ok lines, st') => (Ok lines, st')
  | (Raise _, st') => (Ok [], st')
  end.
Proof.
  unfold collect_processes, try_except.
  destruct (collect_processes_body _ _ _ st) as [[lines|e] st']; [done|].
  simpl. by destruct (bool_decide _).
Qed.

(** The [try] block on a pod that was read and is not running: nothing is
    returned but the empty list, or [AttributeError] is raised, and the
    only call made is the read. *)
Lemma body_not_running pod_name namespace container_name (st : state W)
    pod w' :
  read_namespaced_pod pod_name namespace (world st) = (Ok pod, w') →
  phase_of pod ≠ Some "Running" →
  let st' := logged (ReadNamespacedPod pod_name namespace) w' st in
  collect_processes_body pod_name namespace container_name st = (Ok [], st')
  ∨ ∃ e, collect_processes_body pod_name namespace container_name st
         = (Raise e, st').
Proof.
  intros Hread Hphase st'. unfold collect_processes_body, bind.
  rewrite (api_call_ok _ _ _ _ _ Hread). fold st'.
  destruct (declared_containers pod) as [|first rest]; [by left|].
  unfold phase_of in Hphase.
  destruct (pod_status pod) as [status|]; simpl in *.
  - rewrite bool_decide_eq_false_2 by done. by left.
  - right. by eexists.
Qed.
End ProcessInspector.

Section ProcessInspectorClaims.
Context {W : Type} `{ControlPlane W}.

(** C2. [collect_processes] (listProcesses) returns a list of strings for
    every input and every behaviour of the control plane, and never raises:
    whatever its [try] block raises collapses to the empty list, in
    particular an error of the pod read and an error of the exec call. *)
Theorem collect_processes_never_raises pod_name namespace container_name
    (st : state W) :
  (∃ lines st',
     collect_processes pod_name namespace container_name st
     = (Ok lines, st'))
  ∧ (∀ e st',
       collect_processes_body pod_name namespace container_name st
       = (Raise e, st') →
       collect_processes pod_name namespace container_name st
       = (Ok [], st'))
  ∧ (∀ e w',
       read_namespaced_pod pod_name namespace (world st) = (Raise e, w') →
       collect_processes pod_name namespace container_name st
       = (Ok [], logged (ReadNamespacedPod pod_name namespace) w' st))
  ∧ (∀ pod w' first rest e w'',
       read_namespaced_pod pod_name namespace (world st) = (Ok pod, w') →
       declared_containers pod = first :: rest →
       phase_of pod = Some "Running" →
       let container := target_container container_name first in
       connect_get_namespaced_pod_exec pod_name namespace ["ps"; "aux"]
         container w' = (Raise e, w'') →
       collect_processes pod_name namespace container_name st
       = (Ok [],
          logged (PodExec pod_name namespace ["ps"; "aux"] container) w''
            (logged (ReadNamespacedPod pod_name namespace) w' st))).
Proof.
  repeat split.
  - rewrite collect_processes_catches.
    destruct (collect_processes_body _ _ _ st) as [[lines|e] st']; eauto.
  - intros e st' Hbody. rewrite collect_processes_catches. by rewrite Hbody.
  - intros e w' Hread. rewrite collect_processes_catches.
    unfold collect_processes_body, bind.
    by rewrite (api_call_ok _ _ _ _ _ Hread).
  - intros pod w' first rest e w'' Hread Hcs Hphase container Hexec.
    rewrite collect_processes_catches.
    unfold collect_processes_body, bind.
    rewrite (api_call_ok _ _ _ _ _ Hread), Hcs.
    unfold phase_of in Hphase.
    destruct (pod_status pod) as [status|]; [|done]. simpl in *.
    rewrite bool_decide_eq_true_2 by done. simpl.
    fold container.
    by erewrite api_call_ok; [|exact Hexec].
Qed.

(** C8. On a pod whose phase is not ["Running"], [collect_processes]
    returns the empty list, raises nothing, and makes no call besides the
    read of the pod: no exec is attempted. *)
Theorem collect_processes_not_running pod_name namespace container_name
    (st : state W) pod w' :
  read_namespaced_pod pod_name namespace (world st) = (Ok pod, w') →
  phase_of pod ≠ Some "Running" →
  collect_processes pod_name namespace container_name st
  = (Ok [], logged (ReadNamespacedPod pod_name namespace) w' st)
  ∧ Forall (λ c, is_exec c = false)
      (drop (length (calls st))
         (calls (collect_processes pod_name namespace container_name st).2)).
Proof.
  intros Hread Hphase.
  assert (collect_processes pod_name namespace container_name st
          = (Ok [], logged (ReadNamespacedPod pod_name namespace) w' st))
    as Heq.
  { rewrite collect_processes_catches.
    destruct (body_not_running pod_name namespace container_name st pod w'
                Hread Hphase) as [Hb|[e Hb]]; by rewrite Hb. }
  split; [done|]. rewrite Heq. simpl.
  rewrite drop_app_length. by repeat constructor.
Qed.
End ProcessInspectorClaims.

(** C2 at the scripted cluster: exec fails in the sidecar, the result is
    the empty list. *)
Lemma collect_processes_never_raises_witness :
  collect_processes (Some "web") (Some "default") (Some "sidecar")
    (init_state Sample.cluster)
  = (Ok [],
     logged (PodExec (Some "web") (Some "default") ["ps"; "aux"]
               (Some "sidecar")) Sample.cluster
       (logged (ReadNamespacedPod (Some "web") (Some "default"))
          Sample.cluster (init_state Sample.cluster))).
Proof.
  destruct (collect_processes_never_raises (Some "web") (Some "default")
              (Some "sidecar") (init_state Sample.cluster))
    as (_ & _ & _ & Hexec).
  eapply (Hexec Sample.web); reflexivity.
Defined.

(** C8 at the scripted cluster: the pod [job] has phase ["Succeeded"]. *)
Lemma collect_processes_not_running_witness :
  collect_processes (Some "job") (Some "default") None
    (init_state Sample.cluster)
  = (Ok [], logged (ReadNamespacedPod (Some "job") (Some "default"))
              Sample.cluster (init_state Sample.cluster))
  ∧ Forall (λ c, is_exec c = false)
      (drop (length (calls (init_state Sample.cluster)))
         (calls (collect_processes (Some "job") (Some "default") None
                   (init_state Sample.cluster)).2)).
Proof.
  apply (collect_processes_not_running (Some "job") (Some "default") None
           (init_state Sample.cluster) Sample.job Sample.cluster).
  - reflexivity.
  - vm_compute. congruence.
Defined.

(** ** The resource collectors *)

Section ResourceCollector.
Context {W : Type} `{ControlPlane W}.

(** A [try] whose body returns is the body. *)
Lemma try_except_ok {A} (body : M W A) hs st a st' :
  body st = (Ok a, st') → try_except body hs st = (Ok a, st').
Proof. intros Hb. unfold try_except. by rewrite Hb. Qed.

(** A [try] with the single clause [except ApiException] around a body
    that raises [e]: the handler runs on an [ApiException], anything else
    passes through. *)
Lemma try_except_api {A} (body : M W A) prefix st e st' :
  body st = (Raise e, st') →
  try_except body
    [(except_class ApiException,
      λ e, raise (Exn RuntimeError (prefix +:+ exn_str e)))] st
  = (Raise (wrapped prefix e), st').
Proof.
  intros Hb. unfold try_except, wrapped. rewrite Hb. simpl.
  by destruct (bool_decide _).
Qed.

Lemma containers_loop pods (result : list record) (st : state W) :
  for_each pods
    (λ result pod,
       match declared_containers pod with
       | [] => ret result
       | containers =>
           for_each containers
             (λ result container,
                ret (result ++ [container_record pod container]))
             result
       end)
    result st
  = (Ok (result
         ++ (pods ≫= λ pod, container_record pod <$> declared_containers pod)),
     st).
Proof.
  revert result. induction pods as [|pod pods IH]; intros result.
  - simpl. by rewrite app_nil_r.
  - rewrite for_each_cons. simpl (_ ≫= _).
    destruct (declared_containers pod) as [|c cs] eqn:Hcs.
    + unfold ret at 1. cbv beta iota. by rewrite IH.
    + rewrite (for_each_append (c :: cs) (container_record pod)), IH.
      by rewrite <- app_assoc.
Qed.

(** Every call of [collect_processes] returns, so the targets can always
    be inspected in turn. *)
Lemma inspected_total targets (st : state W) :
  ∃ outcomes st', inspected st targets outcomes st'.
Proof.
  revert st. induction targets as [|[pod c] targets IH]; intros st.
  - repeat eexists. constructor.
  - pose proof (collect_processes_catches (meta_name (pod_metadata pod))
                  (meta_namespace (pod_metadata pod)) (container_name c) st)
      as Hrun.
    destruct (collect_processes_body _ _ _ st) as [[lines|e] st1];
      destruct (IH st1) as (outcomes & st2 & Hrest);
      eexists (_ :: outcomes), st2; by econstructor.
Qed.

Lemma inspected_length (st st' : state W) targets outcomes :
  inspected st targets outcomes st' → length outcomes = length targets.
Proof. induction 1; simpl; congruence. Qed.

Lemma inspected_app (st st1 st2 : state W) t1 o1 t2 o2 :
  inspected st t1 o1 st1 → inspected st1 t2 o2 st2 →
  inspected st (t1 ++ t2) (o1 ++ o2) st2.
Proof.
  induction 1; intros Hrest; simpl; [done|]. econstructor; eauto.
Qed.

(** The inner loop of [collect_all_processes] over the containers of one
    pod. *)
Lemma snapshots_loop pod containers outcomes (result : list record)
    (st st' : state W) :
  inspected st ((λ c, (pod, c)) <$> containers) outcomes st' →
  for_each containers
    (λ result container,
       let! processes :=
         collect_processes (meta_name (pod_metadata pod))
           (meta_namespace (pod_metadata pod))
           (container_name container) in
       ret (result ++ [process_snapshot pod container processes]))
    result st
  = (Ok (result
         ++ zip_with snapshot_of ((λ c, (pod, c)) <$> containers) outcomes),
     st').
Proof.
  revert outcomes result st.
  induction containers as [|c cs IH]; intros outcomes result st Hrun;
    inversion Hrun; subst.
  - simpl. by rewrite app_nil_r.
  - rewrite for_each_cons. unfold bind at 1.
    match goal with Hc : collect_processes _ _ _ _ = _ |- _ =>
      rewrite Hc end.
    unfold ret at 1. cbv beta iota. erewrite IH by eassumption.
    simpl. by rewrite <- app_assoc.
Qed.
End ResourceCollector.

Section ResourceCollectorClaims.
Context {W : Type} `{ControlPlane W}.

(** C4. When the pod listing returns, [collect_containers] returns, in
    order, exactly one record per declared container of each pod: a pod
    without spec, without container list or with an empty one contributes
    nothing and raises nothing; the number of records is the sum of the
    container counts; each record holds the container's name and image
    and the owning pod's name, namespace and node name. *)
Theorem collect_containers_flattens (st : state W) pods w' :
  list_pod_for_all_namespaces (world st) = (Ok pods, w') →
  let records :=
    pods ≫= λ pod, container_record pod <$> declared_containers pod in
  collect_containers st
  = (Ok records, logged ListPodForAllNamespaces w' st)
  ∧ length records = sum_list (length ∘ declared_containers <$> pods)
  ∧ (∀ pod,
       pod_spec pod = None
       ∨ (∃ spec, pod_spec pod = Some spec
                  ∧ (spec_containers spec = None
                     ∨ spec_containers spec = Some [])) →
       declared_containers pod = [])
  ∧ (∀ pod c,
       let r := container_record pod c in
       keys r = ["name"; "image"; "pod_name"; "namespace"; "node_name"]
       ∧ dict_get r "name" = Some (VAtom (opt_atom (container_name c)))
       ∧ dict_get r "image" = Some (VAtom (opt_atom (container_image c)))
       ∧ dict_get r "pod_name"
         = Some (VAtom (opt_atom (meta_name (pod_metadata pod))))
       ∧ dict_get r "namespace"
         = Some (VAtom (opt_atom (meta_namespace (pod_metadata pod))))
       ∧ dict_get r "node_name"
         = Some (VAtom (opt_atom (pod_spec pod ≫= spec_node_name)))).
Proof.
  intros Hlist records. split; [|split; [|split]].
  - unfold collect_containers. apply try_except_ok. unfold bind.
    rewrite (api_call_ok _ _ _ _ _ Hlist).
    by rewrite containers_loop.
  - unfold records. clear. induction pods as [|pod pods IH]; [done|].
    simpl. rewrite length_app, length_fmap. f_equal. exact IH.
  - intros pod [Hnone|(spec & Hspec & [Hcs|Hcs])];
      unfold declared_containers; rewrite ?Hnone, ?Hspec, ?Hcs; done.
  - intros pod c r. unfold r, container_record.
    by destruct (pod_spec pod).
Qed.

Lemma running_targets_cons pod pods :
  running_targets (pod :: pods)
  = (if is_running pod then (λ c, (pod, c)) <$> declared_containers pod
     else []) ++ running_targets pods.
Proof. done. Qed.

(** The outer loop of [collect_all_processes], when every pod has a
    status sub-object. *)
Lemma processes_loop pods (result : list record) (st : state W) :
  Forall (λ pod, is_Some (pod_status pod)) pods →
  ∃ outcomes st',
    inspected st (running_targets pods) outcomes st'
    ∧ for_each pods
        (λ result pod,
           let! status := getattr (pod_status pod) "phase" in
           if negb (bool_decide (status_phase status = Some "Running"))
           then ret result
           else
             match declared_containers pod with
             | [] => ret result
             | containers =>
                 for_each containers
                   (λ result container,
                      let! processes :=
                        collect_processes
                          (meta_name (pod_metadata pod))
                          (meta_namespace (pod_metadata pod))
                          (container_name container) in
                      ret (result
                           ++ [process_snapshot pod container processes]))
                   result
             end)
        result st
      = (Ok (result ++ zip_with snapshot_of (running_targets pods) outcomes),
         st').
Proof.
  intros Hstatus. revert result st.
  induction Hstatus as [|pod pods [status Hst] _ IH]; intros result st.
  - exists [], st. split; [constructor|]. simpl. by rewrite app_nil_r.
  - rewrite for_each_cons, running_targets_cons.
    assert (is_running pod
            = bool_decide (status_phase status = Some "Running")) as ->.
    { unfold is_running, phase_of. by rewrite Hst. }
    unfold bind at 1. rewrite Hst. unfold getattr at 1, ret at 1.
    cbv beta iota.
    destruct (bool_decide (status_phase status = Some "Running")).
    + change (negb true) with false. cbv iota.
      destruct (inspected_total ((λ c, (pod, c)) <$> declared_containers pod)
                  st) as (o1 & st1 & Hrun1).
      destruct (IH (result ++ zip_with snapshot_of
                      ((λ c, (pod, c)) <$> declared_containers pod) o1) st1)
        as (o2 & st2 & Hrun2 & Hloop).
      exists (o1 ++ o2), st2. split; [by eapply inspected_app|].
      rewrite zip_with_app
        by (symmetry; by eapply inspected_length).
      rewrite (app_assoc result), <- Hloop.
      destruct (declared_containers pod) as [|c cs] eqn:Hcs.
      * inversion Hrun1; subst. unfold ret at 1. cbv beta iota.
        by rewrite app_nil_r.
      * by rewrite (snapshots_loop pod (c :: cs) o1 result st st1 Hrun1).
    + change (negb false) with true. cbv iota. unfold ret at 1.
      cbv beta iota.
      destruct (IH result st) as (o2 & st2 & Hrun2 & Hloop).
      by exists o2, st2.
Qed.

End ResourceCollectorClaims.

(** C4 at the scripted cluster: pods with containers [[app; sidecar]] and
    [[task]] and a pod without spec give exactly three records. *)
Lemma collect_containers_flattens_witness :
  ∃ records,
    collect_containers (init_state Sample.cluster)
    = (Ok records,
       logged ListPodForAllNamespaces Sample.cluster
         (init_state Sample.cluster))
    ∧ length records = 3
    ∧ (λ r, dict_get r "pod_name") <$> records
      = [Some (VAtom (AStr "web")); Some (VAtom (AStr "web"));
         Some (VAtom (AStr "job"))].
Proof.
  pose proof (collect_containers_flattens (init_state Sample.cluster)
                [Sample.web; Sample.job; Sample.bare] Sample.cluster) as Hthm.
  destruct (Hthm eq_refl) as (Hrun & Hlen & _).
  eexists. split; [exact Hrun|]. split; [exact Hlen|reflexivity].
Defined.


(** The same run, evaluated. *)
Example collect_all_processes_two_containers :
  (collect_all_processes (init_state Sample.cluster)).1
  = Ok [process_snapshot Sample.web (Sample.container "app" "nginx")
          ["PID USER COMMAND"; "1 root nginx"];
        process_snapshot Sample.web (Sample.container "sidecar" "envoy") []].
Proof. reflexivity. Qed.

Section FatalListing.
Context {W : Type} `{ControlPlane W}.

(** C6, as amended.  When the list call of a collector raises, the
    collector raises and returns no records, and no further call is made:
    an [ApiException] is wrapped into a [RuntimeError] that carries its
    text, any other exception passes unchanged. *)
Theorem list_failure_is_fatal (st : state W) e w' :
  (list_node (world st) = (Raise e, w') →
   collect_nodes st
   = (Raise (wrapped "Failed to list nodes: " e), logged ListNode w' st))
  ∧ (list_pod_for_all_namespaces (world st) = (Raise e, w') →
     let st' := logged ListPodForAllNamespaces w' st in
     collect_pods st = (Raise (wrapped "Failed to list pods: " e), st')
     ∧ collect_containers st
       = (Raise (wrapped "Failed to list containers: " e), st')
     ∧ collect_all_processes st
       = (Raise (wrapped "Failed to collect processes: " e), st')).
Proof.
  split.
  - intros Hlist. unfold collect_nodes. apply try_except_api.
    unfold bind. by rewrite (api_call_ok _ _ _ _ _ Hlist).
  - intros Hlist st'.
    repeat split;
      [unfold collect_pods|unfold collect_containers
      |unfold collect_all_processes];
      apply try_except_api; unfold bind at 1;
      by rewrite (api_call_ok _ _ _ _ _ Hlist).
Qed.
End FatalListing.

(** C6 at the scripted cluster whose list calls are refused with 403. *)
Lemma list_failure_is_fatal_witness :
  (collect_nodes (init_state (Sample.failing_lists Sample.forbidden))).1
  = Raise (Exn RuntimeError "Failed to list nodes: (403) Forbidden")
  ∧ (collect_all_processes
       (init_state (Sample.failing_lists Sample.forbidden))).1
    = Raise (Exn RuntimeError "Failed to collect processes: (403) Forbidden").
Proof.
  set (st := init_state (Sample.failing_lists Sample.forbidden)).
  destruct (list_failure_is_fatal st Sample.forbidden
              (Sample.failing_lists Sample.forbidden)) as [Hnodes Hpods].
  split.
  - by rewrite (Hnodes eq_refl).
  - destruct (Hpods eq_refl) as (_ & _ & Hprocs). by rewrite Hprocs.
Defined.

(** C6 as stated fails: a list call that times out in the transport layer
    raises no [ApiException], and [collect_nodes] lets the error through as
    it is, not as a [RuntimeError]. *)
Lemma list_failure_not_always_wrapped :
  ¬ (∀ (st : state Script) e w',
       list_node (world st) = (Raise e, w') →
       ∃ msg, (collect_nodes st).1 = Raise (Exn RuntimeError msg)).
Proof.
  intros Hclaim.
  pose proof (Hclaim (init_state (Sample.failing_lists Sample.timeout))
                Sample.timeout (Sample.failing_lists Sample.timeout)) as Hc.
  destruct (Hc eq_refl) as [msg Hmsg].
  vm_compute in Hmsg. discriminate Hmsg.
Qed.

(** C1, at the failing inputs.  A node without status sub-object makes
    [collect_nodes] raise [AttributeError], and a pod without status
    sub-object makes [collect_all_processes] raise it, where [collect_pods]
    on the same pods returns records with explicit [None] fields. *)
Theorem absent_status_propagates :
  let st := init_state Sample.statusless in
  (collect_nodes st).1
  = Raise (Exn AttributeError
             "'NoneType' object has no attribute 'node_info'")
  ∧ (collect_all_processes st).1
    = Raise (Exn AttributeError "'NoneType' object has no attribute 'phase'")
  ∧ (collect_pods st).1
    = Ok [pod_record Sample.web; pod_record Sample.no_status]
  ∧ dict_get (pod_record Sample.no_status) "status" = Some (VAtom ANone)
  ∧ dict_get (pod_record Sample.no_status) "pod_ip" = Some (VAtom ANone).
Proof. vm_compute. repeat split. Qed.

(** ** Dictionaries *)

Lemma dict_get_set {V} (d : dict V) k v k' :
  dict_get (dict_set d k v) k'
  = if decide (k = k') then Some v else dict_get d k'.
Proof.
  induction d as [|[k0 v0] d IH]; simpl.
  - done.
  - destruct (decide (k0 = k)) as [->|Hne]; simpl.
    + by destruct (decide (k = k')).
    + destruct (decide (k0 = k')) as [->|Hne'].
      * by rewrite decide_False.
      * exact IH.
Qed.

Lemma keys_set {V} (d : dict V) k v x :
  x ∈ keys (dict_set d k v) → x = k ∨ x ∈ keys d.
Proof.
  unfold keys. induction d as [|[k0 v0] d IH]; simpl.
  - rewrite list_elem_of_singleton. by left.
  - destruct (decide (k0 = k)) as [->|Hne]; simpl.
    + rewrite !elem_of_cons. tauto.
    + rewrite !elem_of_cons. intros [->|Hin]; [tauto|].
      destruct (IH Hin); tauto.
Qed.

Lemma assign_all_get {V} (g : string → V) fields d k :
  dict_get (assign_all g fields d) k
  = if decide (k ∈ fields) then Some (g k) else dict_get d k.
Proof.
  unfold assign_all. revert d.
  induction fields as [|f fields IH]; intros d; simpl.
  - destruct (decide (k ∈ [])) as [Hin|_]; [|done].
    by apply elem_of_nil in Hin.
  - rewrite IH, dict_get_set.
    destruct (decide (k ∈ f :: fields)) as [Hin|Hnin].
    + apply elem_of_cons in Hin.
      destruct (decide (k ∈ fields)) as [_|Hnf]; [done|].
      destruct Hin as [->|?]; [|done]. by rewrite decide_True.
    + rewrite not_elem_of_cons in Hnin. destruct Hnin as [Hne Hnf].
      rewrite (decide_False _ _ Hnf). by rewrite decide_False.
Qed.

Lemma assign_all_keys {V} (g : string → V) fields d x :
  x ∈ keys (assign_all g fields d) → x ∈ fields ∨ x ∈ keys d.
Proof.
  unfold assign_all. revert d.
  induction fields as [|f fields IH]; intros d; simpl.
  - by right.
  - intros Hin. destruct (IH _ Hin) as [?|Hset].
    + left. by right.
    + destruct (keys_set _ _ _ _ Hset) as [->|?]; [left; by left|by right].
Qed.

Lemma dict_of_zip_assign {V} (g : string → V) fields :
  dict_of_zip fields (g <$> fields) = assign_all g fields [].
Proof.
  unfold dict_of_zip, assign_all. generalize (@nil (string * V)).
  induction fields as [|f fields IH]; intros d; simpl; [done|apply IH].
Qed.

(** ** The exporter *)

Lemma rendered_cell_code (item : record) field :
  csv_field (flatten_value (dict_get item field)) = rendered_cell item field.
Proof.
  unfold rendered_cell.
  destruct (dict_get item field) as [[[]|]|]; done.
Qed.

Section Exporter.
Context {W : Type}.

(** Writing a row that was assigned from the field names never raises,
    and appends the cells in field order. *)
Lemma writerow_assigned filename fieldnames (g : string → atom)
    (st : state W) :
  DictWriter_writerow filename fieldnames (assign_all g fieldnames []) st
  = (Ok (),
     with_files st
       (alter (λ t, t ++ [csv_field ∘ g <$> fieldnames]) filename
          (files st))).
Proof.
  unfold DictWriter_writerow.
  assert (filter (λ k, k ∉ fieldnames)
            (keys (assign_all g fieldnames [])) = []) as ->.
  { assert (Forall (λ k, k ∈ fieldnames)
              (keys (assign_all g fieldnames []))) as Hall.
    { apply Forall_forall. intros x Hx.
      destruct (assign_all_keys _ _ _ _ Hx) as [?|Hnil]; [done|].
      by apply elem_of_nil in Hnil. }
    induction Hall as [|k ks Hk _ IH]; [done|].
    rewrite filter_cons, decide_False by tauto. exact IH. }
  assert ((λ key, default (AStr "")
                    (dict_get (assign_all g fieldnames []) key))
          <$> fieldnames = g <$> fieldnames) as ->.
  { apply list_fmap_ext. intros i k Hk. rewrite assign_all_get.
    rewrite decide_True; [done|]. by eapply list_elem_of_lookup_2. }
  unfold writer_writerow, with_files. by rewrite <- list_fmap_compose.
Qed.

(** The loop over the items, on a file that holds [t]. *)
Lemma rows_loop filename fieldnames items t m (st : state W) :
  files st = <[filename := t]> m →
  for_each items
    (λ _ item,
       DictWriter_writerow filename fieldnames (export_row fieldnames item))
    () st
  = (Ok (),
     with_files st
       (<[filename := t ++ (rendered_row fieldnames <$> items)]> m)).
Proof.
  revert t st. induction items as [|item items IH]; intros t st Hfiles.
  - simpl. unfold ret, with_files. rewrite app_nil_r, <- Hfiles.
    by destruct st.
  - rewrite for_each_cons.
    change (export_row fieldnames item)
      with (assign_all (λ field, flatten_value (dict_get item field))
              fieldnames []).
    rewrite writerow_assigned, Hfiles, alter_insert_eq.
    erewrite IH by reflexivity.
    unfold with_files. simpl. do 3 f_equal.
    rewrite <- app_assoc. simpl. do 2 f_equal.
    unfold rendered_row. apply list_fmap_ext. intros i k _. simpl.
    apply rendered_cell_code.
Qed.
End Exporter.

Section ExporterLoop.
Context {W : Type} `{ControlPlane W}.

Lemma header_cells (fieldnames : list string) :
  csv_field ∘ AStr <$> fieldnames = fieldnames.
Proof.
  induction fieldnames as [|f fs IH]; [done|]. rewrite fmap_cons.
  by f_equal.
Qed.

(** One non-empty category: its file is (re)written with its table and
    one line is printed; nothing is raised. *)
Lemma export_category output_dir key first rest (st : state W) :
  let items := first :: rest in
  let filename := csv_path output_dir key in
  (run! open_w filename in
   run! DictWriter_writeheader filename (keys first) in
   run! for_each items
          (λ _ item,
             DictWriter_writerow filename (keys first)
               (export_row (keys first) item))
          () in
   print Stdout
     ("Exported " +:+ pretty (length items) +:+ " " +:+ key
      +:+ " to " +:+ filename)) st
  = (Ok (),
     State (world st) (calls st) (dirs st)
       (<[filename := csv_table items]> (files st))
       (output st
        ++ [(Stdout, "Exported " +:+ pretty (length items) +:+ " " +:+ key
                     +:+ " to " +:+ filename)])).
Proof.
  intros items filename. unfold bind at 1. unfold open_w at 1.
  unfold bind at 1. unfold DictWriter_writeheader.
  rewrite dict_of_zip_assign, writerow_assigned. simpl files.
  rewrite alter_insert_eq, header_cells. unfold bind at 1.
  erewrite rows_loop by (unfold with_files; simpl; reflexivity).
  unfold print, with_files. by simpl.
Qed.

(** The loop of [export_csv] over the categories. *)
Lemma export_loop output_dir data (st : state W) :
  for_each data
    (λ _ entry,
       let key := entry.1 in
       let items := entry.2 in
       match items with
       | [] => ret ()
       | first :: _ =>
           let filename := os_path_join output_dir (key +:+ ".csv") in
           let fieldnames := keys first in
           run! open_w filename in
           run! DictWriter_writeheader filename fieldnames in
           run! for_each items
                  (λ _ item,
                     DictWriter_writerow filename fieldnames
                       (export_row fieldnames item))
                  () in
           print Stdout
             ("Exported " +:+ pretty (length items) +:+ " " +:+ key
              +:+ " to " +:+ filename)
       end)
    () st
  = (Ok (),
     State (world st) (calls st) (dirs st)
       (exported_files output_dir data (files st))
       (output st ++ export_messages output_dir data)).
Proof.
  revert st. induction data as [|[key items] data IH]; intros st.
  - simpl. unfold ret. rewrite app_nil_r. by destruct st.
  - rewrite for_each_cons. set (loop := for_each data _).
    cbn [fst snd].
    destruct items as [|first rest].
    + unfold ret at 1. cbv beta iota. subst loop. by rewrite IH.
    + pose proof (export_category output_dir key first rest st) as Hcat.
      cbv zeta in Hcat.
      lazymatch goal with
      | |- (let (r, st') := ?m in _) = _ =>
          lazymatch type of Hcat with
          | _ = ?rhs => assert (m = rhs) as -> by exact Hcat
          end
      end.
      cbv beta iota. subst loop. rewrite IH. simpl.
      by rewrite <- app_assoc.
Qed.

(** What [export_csv] does, in one equation. *)
Lemma export_csv_run data output_dir (st : state W) :
  export_csv data output_dir st
  = (Ok (),
     State (world st) (calls st)
       (dirs st ∪ list_to_set (leading_dirs output_dir) ∪ {[output_dir]})
       (exported_files output_dir data (files st))
       (output st ++ export_messages output_dir data)).
Proof.
  unfold export_csv. unfold bind at 1. unfold makedirs at 1.
  cbv beta iota. by rewrite export_loop.
Qed.
End ExporterLoop.

(** ** The files an export leaves *)

Section ExportedFiles.
Implicit Types (data : dict (list record)) (fs : gmap string table).

Lemma exported_files_app output_dir data1 data2 fs :
  exported_files output_dir (data1 ++ data2) fs
  = exported_files output_dir data2 (exported_files output_dir data1 fs).
Proof. unfold exported_files. by rewrite foldl_app. Qed.

Lemma exported_files_cons output_dir key items data fs :
  exported_files output_dir ((key, items) :: data) fs
  = exported_files output_dir data
      (match items with
       | [] => fs
       | _ :: _ => <[csv_path output_dir key := csv_table items]> fs
       end).
Proof. done. Qed.

(** A path no category writes to keeps what it had. *)
Lemma exported_files_untouched output_dir data fs p :
  Forall (λ e, writes_to output_dir p e = false) data →
  exported_files output_dir data fs !! p = fs !! p.
Proof.
  intros Hno. revert fs.
  induction Hno as [|[key items] data Hw _ IH]; intros fs; [done|].
  rewrite exported_files_cons, IH.
  destruct items as [|first rest]; [done|].
  unfold writes_to in Hw. simpl in Hw.
  apply bool_decide_eq_false in Hw. by rewrite lookup_insert_ne.
Qed.





End ExportedFiles.

Section ExporterClaims.
Context {W : Type} `{ControlPlane W}.




End ExporterClaims.




(** The header follows the first record, not the alphabet. *)
Example export_header_order :
  files (export_csv [("t", [[("b", VAtom (AInt 1)); ("a", VAtom (AInt 2))];
                            [("a", VAtom (AInt 9)); ("b", VAtom (AInt 9))]])]
           "out" (init_state Sample.cluster)).2 !! "out/t.csv"
  = Some [["b"; "a"]; ["1"; "2"]; ["9"; "9"]].
Proof. by rewrite export_csv_run. Qed.

(** ** The entry point *)

Section RunInventoryFacts.
Context {W : Type} `{ControlPlane W}.

(** [_connect] raises nothing but the collector's own [ConnectionError]. *)
Lemma connect_raises_collector_error (st : state W) e st' :
  _connect st = (Raise e, st') → exn_cls e = collector_ConnectionError.
Proof.
  unfold _connect. unfold try_except at 1.
  destruct (bind _ _ st) as [[?|e0] st0]; [done|]. simpl.
  unfold raise. by intros [= <- _].
Qed.

(** Whatever the [try] block of [main] raises, [main] ends with exit
    status 1; the credentials guidance is printed only for the builtin
    [ConnectionError]. *)
Lemma main_failure args (st : state W) e st' :
  main_body args st = (Raise e, st') →
  main args st
  = if bool_decide (exn_cls e = builtins_ConnectionError)
    then connection_failure_handler e st'
    else generic_failure_handler e st'.
Proof.
  intros Hbody. unfold main, try_except. rewrite Hbody. simpl.
  by destruct (bool_decide _).
Qed.

(** A failure to connect ends [main] in the generic branch. *)
Lemma main_connect_failure args (st : state W) e st' :
  _connect (print Stdout "Connecting to Kubernetes cluster..." st).2
  = (Raise e, st') →
  main args st = generic_failure_handler e st'.
Proof.
  intros Hconn.
  rewrite (main_failure args st e st').
  - rewrite bool_decide_eq_false_2; [done|].
    by rewrite (connect_raises_collector_error _ _ _ Hconn).
  - unfold main_body. unfold bind at 1. unfold print at 1.
    unfold bind at 1. unfold print in Hconn. simpl in Hconn.
    by rewrite Hconn.
Qed.
End RunInventoryFacts.

(** C7, at the failing input.  When neither credential source works,
    [_connect] raises the collector's [ConnectionError]; [main] ends with
    exit status 1 but through the generic branch: the error line is all it
    prints, the guidance on credentials is not. *)
Theorem connection_error_takes_generic_branch :
  let args := {| output_dir := "output"; include_processes := false |} in
  let run := main args (init_state Sample.unreachable) in
  (_connect (init_state Sample.unreachable)).1
  = Raise (Exn collector_ConnectionError
             "Failed to connect to Kubernetes cluster: Invalid kube-config file.")
  ∧ run.1 = Ok 1%Z
  ∧ output run.2
    = [(Stdout, "Connecting to Kubernetes cluster...");
       (Stderr,
        "Error: Failed to connect to Kubernetes cluster: Invalid kube-config file.")]
  ∧ (Stdout, "  - Valid kubeconfig file, or") ∉ output run.2.
Proof.
  intros args run.
  assert (output run.2
          = [(Stdout, "Connecting to Kubernetes cluster...");
             (Stderr,
              "Error: Failed to connect to Kubernetes cluster: Invalid kube-config file.")])
    as Hout by reflexivity.
  split; [reflexivity|]. split; [reflexivity|]. split; [exact Hout|].
  rewrite Hout. intros Hin.
  apply elem_of_cons in Hin as [Heq|Hin]; [discriminate Heq|].
  apply elem_of_cons in Hin as [Heq|Hin]; [discriminate Heq|].
  by apply elem_of_nil in Hin.
Qed.

(** * Further properties of the code *)

(** ** Frame rules *)

Section Frames.
Context {W : Type} (R : relation (state W)) `{!PreOrder R}.

Lemma keeps_ret {A} (a : A) : keeps R (ret a).
Proof. intros st r st' [= _ <-]. reflexivity. Qed.

Lemma keeps_raise {A} e : keeps R (@raise W A e).
Proof. intros st r st' [= _ <-]. reflexivity. Qed.

Lemma keeps_getattr {A} (o : option A) attr : keeps R (getattr o attr).
Proof. destruct o; [apply keeps_ret|apply keeps_raise]. Qed.

Lemma keeps_bind {A B} (m : M W A) (k : A → M W B) :
  keeps R m → (∀ a, keeps R (k a)) → keeps R (bind m k).
Proof.
  intros Hm Hk st r st'. unfold bind.
  destruct (m st) as [[a|e] st1] eqn:Hrun.
  - intros Hrest. etrans; [by eapply Hm|by eapply Hk].
  - intros [= _ <-]. by eapply Hm.
Qed.

Lemma keeps_try_except {A} (body : M W A) hs :
  keeps R body → Forall (λ h, ∀ e, keeps R (h.2 e)) hs →
  keeps R (try_except body hs).
Proof.
  intros Hbody Hhs st r st'. unfold try_except.
  destruct (body st) as [[a|e] st1] eqn:Hrun.
  - intros [= _ <-]. by eapply Hbody.
  - assert (R st st1) as Hst1 by (by eapply Hbody).
    assert (∀ h, find_handler hs e = Some h → keeps R h) as Hfound.
    { clear -Hhs. induction Hhs as [|[cl h] hs Hh _ IH]; intros h'; simpl;
        [done|].
      destruct (catches cl e); [|apply IH]. intros [= <-]. apply Hh. }
    destruct (find_handler hs e) as [h|].
    + intros Hh. etrans; [exact Hst1|]. by eapply (Hfound h).
    + by intros [= _ <-].
Qed.

Lemma keeps_for_each {X Acc} (xs : list X) (body : Acc → X → M W Acc) acc :
  (∀ acc x, keeps R (body acc x)) → keeps R (for_each xs body acc).
Proof.
  intros Hbody. revert acc. induction xs as [|x xs IH]; intros acc.
  - apply keeps_ret.
  - simpl. apply keeps_bind; [apply Hbody|apply IH].
Qed.
End Frames.

Lemma keeps_final {W A} (R : relation (state W)) (m : M W A) st :
  keeps R m → R st (m st).2.
Proof. intros Hm. destruct (m st) as [r st'] eqn:Hrun. by eapply Hm. Qed.

#[global] Instance same_store_preorder {W} : PreOrder (@same_store W).
Proof.
  split.
  - by intros st.
  - intros st1 st2 st3 (?&?&?) (?&?&?). repeat split; congruence.
Qed.

#[global] Instance same_files_preorder {W} : PreOrder (@same_files W).
Proof.
  split.
  - by intros st.
  - intros st1 st2 st3 (?&?) (?&?). split; congruence.
Qed.

#[global] Instance same_cluster_preorder {W} : PreOrder (@same_cluster W).
Proof.
  split.
  - by intros st.
  - intros st1 st2 st3 (?&?) (?&?). split; congruence.
Qed.

#[global] Instance calls_more_preorder {W} P : PreOrder (@calls_more W P).
Proof.
  split.
  - intros st. exists []. by rewrite app_nil_r.
  - intros st1 st2 st3 (cs1 & H1 & HP1) (cs2 & H2 & HP2).
    exists (cs1 ++ cs2). rewrite H2, H1, app_assoc. split; [done|].
    by apply Forall_app.
Qed.

#[global] Instance files_outside_preorder {W} paths :
  PreOrder (@files_outside W paths).
Proof.
  split.
  - by intros st p _.
  - intros st1 st2 st3 H12 H23 p Hp. by rewrite H23, H12.
Qed.

Lemma same_store_files {W} (st st' : state W) :
  same_store st st' → same_files st st'.
Proof. intros (?&?&?). by split. Qed.

Lemma same_files_outside {W} paths (st st' : state W) :
  same_files st st' → files_outside paths st st'.
Proof. intros [_ Hfiles] p _. by rewrite Hfiles. Qed.

(** ** The primitives *)

Section PrimitiveFrames.
Context {W : Type}.

Lemma api_call_same_store {A} c (f : W → result A * W) :
  keeps same_store (api_call c f).
Proof.
  intros st r st'. unfold api_call. destruct (f (world st)) as [r' w'].
  by intros [= _ <-].
Qed.

Lemma api_call_calls_more (P : call → Prop) :
  ∀ A c (f : W → result A * W), P c → keeps (calls_more P) (api_call c f).
Proof.
  intros A c f HP st r st'. unfold api_call. destruct (f (world st)) as [r' w'].
  intros [= _ <-]. exists [c]. split; [done|]. by constructor.
Qed.

Lemma print_same_files s text : keeps (@same_files W) (print s text).
Proof. by intros st r st' [= _ <-]. Qed.

Lemma print_same_cluster s text : keeps (@same_cluster W) (print s text).
Proof. by intros st r st' [= _ <-]. Qed.

End PrimitiveFrames.

(** Solves [keeps R m] for a computation built from the monad's
    operations, given the rule [api] for control-plane calls. *)
Ltac keeps_with api :=
  repeat first
    [ apply keeps_ret | apply keeps_raise | apply keeps_getattr
    | apply api
    | apply keeps_bind | apply keeps_for_each | apply keeps_try_except
    | apply Forall_cons_2 | apply Forall_nil_2
    | progress intros
    | progress cbn [snd]
    | lazymatch goal with |- PreOrder _ => apply _ end
    | match goal with
      | |- keeps _ (match ?x with _ => _ end) => destruct x
      | |- keeps _ (if ?b then _ else _) => destruct b
      end ].

(** ** What the collectors leave alone *)

Section CollectorFrames.
Context {W : Type} `{ControlPlane W}.

Lemma connect_same_store : keeps same_store (_connect (W:=W)).
Proof. unfold _connect. keeps_with (@api_call_same_store W). Qed.

Lemma collect_nodes_same_store : keeps same_store (collect_nodes (W:=W)).
Proof.
  unfold collect_nodes, node_record. keeps_with (@api_call_same_store W).
Qed.

Lemma collect_pods_same_store : keeps same_store (collect_pods (W:=W)).
Proof. unfold collect_pods. keeps_with (@api_call_same_store W). Qed.

Lemma collect_containers_same_store :
  keeps same_store (collect_containers (W:=W)).
Proof. unfold collect_containers. keeps_with (@api_call_same_store W). Qed.

Lemma collect_processes_same_store pod_name namespace container_name :
  keeps same_store
    (collect_processes (W:=W) pod_name namespace container_name).
Proof.
  unfold collect_processes, collect_processes_body.
  keeps_with (@api_call_same_store W).
Qed.

Lemma collect_all_processes_same_store :
  keeps same_store (collect_all_processes (W:=W)).
Proof.
  unfold collect_all_processes.
  keeps_with (@api_call_same_store W); apply collect_processes_same_store.
Qed.
End CollectorFrames.

(** ** Normalization of nodes and pods *)

Section Normalization.
Context {W : Type} `{ControlPlane W}.

Lemma node_record_status node status (st : state W) :
  node_status node = Some status →
  node_record node st = (Ok (node_row node status), st).
Proof. intros Hs. unfold node_record, bind. by rewrite Hs. Qed.

Lemma node_record_no_status node (st : state W) :
  node_status node = None →
  node_record node st = (Raise (attribute_error "node_info"), st).
Proof. intros Hs. unfold node_record, bind. by rewrite Hs. Qed.

(** The loop of [collect_nodes] over nodes that all have a status. *)
Lemma nodes_loop nodes (result : list record) (st : state W) :
  Forall (λ node, is_Some (node_status node)) nodes →
  ∃ rows,
    Forall2 (λ node r, ∃ status, node_status node = Some status
                                 ∧ r = node_row node status) nodes rows
    ∧ for_each nodes
        (λ result node, let! r := node_record node in ret (result ++ [r]))
        result st
      = (Ok (result ++ rows), st).
Proof.
  intros Hall. revert result.
  induction Hall as [|node nodes [status Hs] _ IH]; intros result.
  - exists []. split; [constructor|]. simpl. by rewrite app_nil_r.
  - destruct (IH (result ++ [node_row node status])) as (rows & Hrows & Hrun).
    exists (node_row node status :: rows). split.
    + constructor; [by exists status|done].
    + rewrite for_each_cons. unfold bind at 1.
      rewrite (node_record_status node status st Hs).
      unfold ret at 1. cbv beta iota. rewrite Hrun.
      by rewrite <- app_assoc.
Qed.

(** The loop of [collect_nodes] when some node has no status. *)
Lemma nodes_loop_fails nodes (result : list record) (st : state W) :
  Exists (λ node, node_status node = None) nodes →
  for_each nodes
    (λ result node, let! r := node_record node in ret (result ++ [r]))
    result st
  = (Raise (attribute_error "node_info"), st).
Proof.
  intros Hex. revert result.
  induction nodes as [|node nodes IH]; intros result.
  - by apply Exists_nil in Hex.
  - rewrite for_each_cons. unfold bind at 1.
    destruct (node_status node) as [status|] eqn:Hs.
    + rewrite (node_record_status node status st Hs).
      unfold ret at 1. cbv beta iota. apply IH.
      apply Exists_cons in Hex as [Hnone|Hex]; [congruence|done].
    + by rewrite (node_record_no_status node st Hs).
Qed.

(** X1. When the node listing returns nodes that all carry a status
    sub-object, [collect_nodes] returns one record per node, in order, with
    the six columns; an absent creation time and the three fields of an
    absent [node_info] are [None]. *)
Theorem collect_nodes_normalizes (st : state W) nodes w' :
  list_node (world st) = (Ok nodes, w') →
  Forall (λ node, is_Some (node_status node)) nodes →
  ∃ records,
    collect_nodes st = (Ok records, logged ListNode w' st)
    ∧ length records = length nodes
    ∧ ∀ i node,
        nodes !! i = Some node →
        ∃ r,
          records !! i = Some r
          ∧ keys r = ["name"; "uid"; "creation_timestamp";
                      "kubernetes_version"; "os_image"; "container_runtime"]
          ∧ dict_get r "name"
            = Some (VAtom (opt_atom (meta_name (node_metadata node))))
          ∧ dict_get r "uid"
            = Some (VAtom (opt_atom (meta_uid (node_metadata node))))
          ∧ dict_get r "creation_timestamp"
            = Some (VAtom (opt_atom
                             (isoformat
                                <$> meta_creation_timestamp
                                      (node_metadata node))))
          ∧ (node_status node ≫= node_info = None →
             dict_get r "kubernetes_version" = Some (VAtom ANone)
             ∧ dict_get r "os_image" = Some (VAtom ANone)
             ∧ dict_get r "container_runtime" = Some (VAtom ANone))
          ∧ (∀ info,
               node_status node ≫= node_info = Some info →
               dict_get r "kubernetes_version"
               = Some (VAtom (opt_atom (kubelet_version info)))
               ∧ dict_get r "os_image"
                 = Some (VAtom (opt_atom (os_image info)))
               ∧ dict_get r "container_runtime"
                 = Some (VAtom (opt_atom (container_runtime_version info)))).
Proof.
  intros Hlist Hall.
  destruct (nodes_loop nodes [] (logged ListNode w' st) Hall)
    as (rows & Hrows & Hrun).
  exists rows. split.
  { unfold collect_nodes. apply try_except_ok. unfold bind at 1.
    rewrite (api_call_ok _ _ _ _ _ Hlist). exact Hrun. }
  split; [symmetry; by eapply Forall2_length|].
  intros i node Hi.
  destruct (Forall2_lookup_l _ _ _ _ _ Hrows Hi)
    as (r & Hr & status & Hs & ->).
  exists (node_row node status). split; [done|]. rewrite Hs. simpl.
  split; [done|]. split; [done|]. split; [done|]. split.
  { by destruct (meta_creation_timestamp (node_metadata node)). }
  split.
  - by intros ->.
  - by intros info ->.
Qed.

(** X2. When the node listing returns a node without status sub-object,
    [collect_nodes] raises [AttributeError] and returns no record at all,
    not even those of the nodes before it. *)
Theorem collect_nodes_absent_status (st : state W) nodes w' :
  list_node (world st) = (Ok nodes, w') →
  Exists (λ node, node_status node = None) nodes →
  collect_nodes st
  = (Raise (attribute_error "node_info"), logged ListNode w' st).
Proof.
  intros Hlist Hex. unfold collect_nodes, try_except, bind.
  rewrite (api_call_ok _ _ _ _ _ Hlist).
  by rewrite (nodes_loop_fails nodes [] _ Hex).
Qed.

(** X3. When the pod listing returns, [collect_pods] returns one record per
    pod, in order and without removing duplicates; the fields read from an
    absent spec or an absent status are [None]. *)
Theorem collect_pods_normalizes (st : state W) pods w' :
  list_pod_for_all_namespaces (world st) = (Ok pods, w') →
  collect_pods st
  = (Ok (pod_record <$> pods), logged ListPodForAllNamespaces w' st)
  ∧ (∀ pod,
       keys (pod_record pod)
       = ["name"; "namespace"; "uid"; "node_name"; "service_account";
          "status"; "pod_ip"])
  ∧ (∀ pod,
       pod_spec pod = None →
       dict_get (pod_record pod) "node_name" = Some (VAtom ANone)
       ∧ dict_get (pod_record pod) "service_account" = Some (VAtom ANone))
  ∧ (∀ pod,
       pod_status pod = None →
       dict_get (pod_record pod) "status" = Some (VAtom ANone)
       ∧ dict_get (pod_record pod) "pod_ip" = Some (VAtom ANone))
  ∧ (∀ pod status,
       pod_status pod = Some status →
       dict_get (pod_record pod) "status"
       = Some (VAtom (opt_atom (status_phase status)))).
Proof.
  intros Hlist. split.
  { unfold collect_pods. apply try_except_ok. unfold bind.
    rewrite (api_call_ok _ _ _ _ _ Hlist).
    by rewrite (for_each_append pods pod_record). }
  split; [done|].
  split; [intros pod Hs; unfold pod_record; by rewrite Hs|].
  split; intros pod; [intros Hs|intros status Hs];
    unfold pod_record; by rewrite Hs.
Qed.
End Normalization.

(** At the scripted clusters. *)
Lemma collect_nodes_normalizes_witness :
  ∃ records,
    collect_nodes (init_state Sample.cluster)
    = (Ok records, logged ListNode Sample.cluster (init_state Sample.cluster))
    ∧ length records = 1.
Proof.
  pose proof (collect_nodes_normalizes (init_state Sample.cluster)
                [Sample.node1] Sample.cluster) as Hthm.
  destruct Hthm as (records & Hrun & Hlen & _); [reflexivity| |].
  - repeat constructor. by eexists.
  - by exists records.
Defined.

Lemma collect_nodes_absent_status_witness :
  collect_nodes (init_state Sample.statusless)
  = (Raise (attribute_error "node_info"),
     logged ListNode Sample.statusless (init_state Sample.statusless)).
Proof.
  apply (collect_nodes_absent_status (init_state Sample.statusless)
           [Sample.node1; Sample.node_no_status] Sample.statusless).
  - reflexivity.
  - apply Exists_cons_tl, Exists_cons_hd. reflexivity.
Defined.

Lemma collect_pods_normalizes_witness :
  collect_pods (init_state Sample.statusless)
  = (Ok [pod_record Sample.web; pod_record Sample.no_status],
     logged ListPodForAllNamespaces Sample.statusless
       (init_state Sample.statusless)).
Proof.
  pose proof (collect_pods_normalizes (init_state Sample.statusless)
                [Sample.web; Sample.no_status] Sample.statusless) as Hthm.
  destruct Hthm as (Hrun & _); [reflexivity|exact Hrun].
Defined.

(** ** Process inspection *)

Section Inspection.
Context {W : Type} `{ControlPlane W}.

(** What one call of [collect_processes] adds to the log: the read of the
    pod, then at most one exec, of [ps aux]. *)
Lemma collect_processes_calls pod_name namespace container_name
    (st : state W) :
  ∃ cs,
    calls (collect_processes pod_name namespace container_name st).2
    = calls st ++ ReadNamespacedPod pod_name namespace :: cs
    ∧ (cs = []
       ∨ ∃ container,
           cs = [PodExec pod_name namespace ["ps"; "aux"] container]).
Proof.
  rewrite collect_processes_catches. unfold collect_processes_body, bind.
  unfold api_call at 1.
  destruct (read_namespaced_pod pod_name namespace (world st))
    as [[pod|e] w'].
  - destruct (declared_containers pod) as [|first rest].
    { exists []. simpl. by split; [|left]. }
    destruct (pod_status pod) as [status|].
    + simpl. destruct (bool_decide _).
      * simpl. unfold api_call at 1. simpl.
        destruct (connect_get_namespaced_pod_exec _ _ _ _ w')
          as [[resp|e] w''];
          eexists [_]; simpl; (split; [by rewrite <- app_assoc|right]);
          by eexists.
      * exists []. simpl. by split; [|left].
    + exists []. simpl. by split; [|left].
  - exists []. simpl. by split; [|left].
Qed.

(** The calls of a whole round of inspection: one read per target, at most
    one exec per target, and nothing else. *)
Lemma inspected_calls (st st' : state W) targets outcomes :
  inspected st targets outcomes st' →
  ∃ cs,
    calls st' = calls st ++ cs
    ∧ length (filter (λ c, is_read c = true) cs) = length targets
    ∧ (length (filter (λ c, is_exec c = true) cs) ≤ length targets)%nat
    ∧ Forall (λ c, is_pod_call c = true) cs.
Proof.
  induction 1 as [st|st pod c lines st1 targets outcomes st2 Hrun _ IH].
  - exists []. rewrite app_nil_r. repeat split; [done|constructor].
  - destruct IH as (cs2 & Hcalls2 & Hreads & Hexecs & Hpod).
    destruct (collect_processes_calls (meta_name (pod_metadata pod))
                (meta_namespace (pod_metadata pod)) (container_name c) st)
      as (cs1 & Hcalls1 & Hcs1).
    rewrite Hrun in Hcalls1. simpl in Hcalls1.
    exists ((ReadNamespacedPod (meta_name (pod_metadata pod))
               (meta_namespace (pod_metadata pod)) :: cs1) ++ cs2).
    rewrite Hcalls2, Hcalls1, <- app_assoc. split; [done|].
    rewrite !filter_app, !length_app, Forall_app.
    destruct Hcs1 as [->|[container ->]]; simpl;
      rewrite ?filter_cons; simpl;
      (split; [by rewrite Hreads|]); (split; [lia|]);
      (split; [by repeat constructor|done]).
Qed.

(** X4. When the pod is read, declares a container, is running and the exec
    returns, [collect_processes] returns the parsed output; the exec runs
    [ps aux] in the container asked for, declared or not, and in the first
    declared one when the name asked for is [None] or empty. *)
Theorem collect_processes_running pod_name namespace asked (st : state W)
    pod w' first rest resp w'' :
  read_namespaced_pod pod_name namespace (world st) = (Ok pod, w') →
  declared_containers pod = first :: rest →
  phase_of pod = Some "Running" →
  connect_get_namespaced_pod_exec pod_name namespace ["ps"; "aux"]
    (target_container asked first) w' = (Ok resp, w'') →
  collect_processes pod_name namespace asked st
  = (Ok (parse_ps resp),
     logged (PodExec pod_name namespace ["ps"; "aux"]
               (target_container asked first)) w''
       (logged (ReadNamespacedPod pod_name namespace) w' st))
  ∧ (asked = None ∨ asked = Some "" →
     target_container asked first = container_name first)
  ∧ (∀ name, asked = Some name → name ≠ "" →
             target_container asked first = Some name).
Proof.
  intros Hread Hcs Hphase Hexec. split; [|split].
  - rewrite collect_processes_catches.
    unfold collect_processes_body, bind.
    rewrite (api_call_ok _ _ _ _ _ Hread), Hcs.
    unfold phase_of in Hphase.
    destruct (pod_status pod) as [status|]; [|done]. simpl in *.
    rewrite bool_decide_eq_true_2 by done. simpl.
    by erewrite api_call_ok; [|exact Hexec].
  - by intros [->| ->].
  - intros name -> Hname. unfold target_container, not_given, nonempty.
    by rewrite bool_decide_eq_false_2.
Qed.

(** X5. Every call of [collect_processes] reads the pod once and then execs at
    most once, always [ps aux]; it writes no file and prints nothing. *)
Theorem collect_processes_footprint pod_name namespace asked (st : state W) :
  same_store st (collect_processes pod_name namespace asked st).2
  ∧ ∃ cs,
      calls (collect_processes pod_name namespace asked st).2
      = calls st ++ ReadNamespacedPod pod_name namespace :: cs
      ∧ (cs = []
         ∨ ∃ container,
             cs = [PodExec pod_name namespace ["ps"; "aux"] container]).
Proof.
  split.
  - apply keeps_final, collect_processes_same_store.
  - apply collect_processes_calls.
Qed.

(** X6. When the listing returns pods that all carry a status,
    [collect_all_processes] lists once, then reads the pod again for every
    declared container of every running pod (one read per snapshot, not per
    pod) and execs at most once per container; it makes no other call. *)
Theorem collect_all_processes_round_trips (st : state W) pods w' :
  list_pod_for_all_namespaces (world st) = (Ok pods, w') →
  Forall (λ pod, is_Some (pod_status pod)) pods →
  ∃ cs,
    calls (collect_all_processes st).2
    = calls st ++ ListPodForAllNamespaces :: cs
    ∧ length (filter (λ c, is_read c = true) cs)
      = length (running_targets pods)
    ∧ (length (filter (λ c, is_exec c = true) cs)
       ≤ length (running_targets pods))%nat
    ∧ Forall (λ c, is_pod_call c = true) cs.
Proof.
  intros Hlist Hstatus.
  destruct (processes_loop pods [] (logged ListPodForAllNamespaces w' st)
              Hstatus) as (outcomes & st' & Hrun & Hloop).
  destruct (inspected_calls _ _ _ _ Hrun) as (cs & Hcalls & Hcount).
  exists cs. split; [|exact Hcount].
  assert (collect_all_processes st
          = (Ok ([] ++ zip_with snapshot_of (running_targets pods) outcomes),
             st')) as ->.
  { unfold collect_all_processes. apply try_except_ok. unfold bind at 1.
    rewrite (api_call_ok _ _ _ _ _ Hlist). exact Hloop. }
  simpl. rewrite Hcalls. simpl. by rewrite <- app_assoc.
Qed.

(** X7. When the listing returns a pod without status sub-object,
    [collect_all_processes] raises [AttributeError] at that pod and returns
    no snapshot; the containers of the running pods before it have been
    inspected by then. *)
Theorem collect_all_processes_absent_status (st : state W) before pod after
    w' :
  list_pod_for_all_namespaces (world st)
  = (Ok (before ++ pod :: after), w') →
  Forall (λ pod, is_Some (pod_status pod)) before →
  pod_status pod = None →
  ∃ outcomes st',
    inspected (logged ListPodForAllNamespaces w' st)
      (running_targets before) outcomes st'
    ∧ collect_all_processes st = (Raise (attribute_error "phase"), st').
Proof.
  intros Hlist Hbefore Hnone.
  destruct (processes_loop before [] (logged ListPodForAllNamespaces w' st)
              Hbefore) as (outcomes & st' & Hrun & Hloop).
  exists outcomes, st'. split; [done|].
  unfold collect_all_processes, try_except. unfold bind at 1.
  rewrite (api_call_ok _ _ _ _ _ Hlist).
  rewrite for_each_app, Hloop, for_each_cons. unfold bind at 1.
  by rewrite Hnone.
Qed.
End Inspection.

Lemma collect_processes_running_witness :
  collect_processes (Some "web") (Some "default") None
    (init_state Sample.cluster)
  = (Ok ["PID USER COMMAND"; "1 root nginx"],
     logged (PodExec (Some "web") (Some "default") ["ps"; "aux"] (Some "app"))
       Sample.cluster
       (logged (ReadNamespacedPod (Some "web") (Some "default"))
          Sample.cluster (init_state Sample.cluster))).
Proof.
  pose proof (collect_processes_running (Some "web") (Some "default") None
                (init_state Sample.cluster) Sample.web Sample.cluster
                (Sample.container "app" "nginx")
                [Sample.container "sidecar" "envoy"] Sample.ps_output
                Sample.cluster) as Hthm.
  destruct Hthm as (Hrun & _); [reflexivity..|exact Hrun].
Defined.

Lemma collect_all_processes_round_trips_witness :
  ∃ cs,
    calls (collect_all_processes (init_state Sample.cluster)).2
    = [] ++ ListPodForAllNamespaces :: cs
    ∧ length (filter (λ c, is_read c = true) cs) = 2.
Proof.
  pose proof (collect_all_processes_round_trips (init_state Sample.cluster)
                [Sample.web; Sample.job; Sample.bare] Sample.cluster) as Hthm.
  destruct Hthm as (cs & Hcalls & Hreads & _); [reflexivity| |].
  - repeat constructor; by eexists.
  - exists cs. split; [exact Hcalls|exact Hreads].
Defined.

Lemma collect_all_processes_absent_status_witness :
  ∃ outcomes st',
    inspected
      (logged ListPodForAllNamespaces Sample.statusless
         (init_state Sample.statusless))
      (running_targets [Sample.web]) outcomes st'
    ∧ collect_all_processes (init_state Sample.statusless)
      = (Raise (attribute_error "phase"), st').
Proof.
  apply (collect_all_processes_absent_status (init_state Sample.statusless)
           [Sample.web] Sample.no_status [] Sample.statusless).
  - reflexivity.
  - repeat constructor. by eexists.
  - reflexivity.
Defined.

(** ** Strings *)

Lemma append_nil_l (s : string) : "" +:+ s = s.
Proof. done. Qed.

Lemma append_cons (c : ascii) (s t : string) :
  String c s +:+ t = String c (s +:+ t).
Proof. done. Qed.

Lemma append_nil_r (s : string) : s +:+ "" = s.
Proof.
  induction s as [|c s IH]; [done|]. by rewrite append_cons, IH.
Qed.

Lemma append_assoc (s t u : string) : (s +:+ t) +:+ u = s +:+ (t +:+ u).
Proof.
  induction s as [|c s IH]; [done|]. by rewrite !append_cons, IH.
Qed.

Lemma rev_app_rev (s t : string) : String.rev_app s t = String.rev s +:+ t.
Proof.
  unfold String.rev. revert t. induction s as [|c s IH]; intros t; [done|].
  simpl. rewrite (IH (String c t)), (IH (String c "")).
  by rewrite append_assoc.
Qed.

Lemma rev_cons (c : ascii) (s : string) :
  String.rev (String c s) = String.rev s +:+ String c "".
Proof. unfold String.rev at 1. simpl. apply rev_app_rev. Qed.

Lemma rev_append (s t : string) :
  String.rev (s +:+ t) = String.rev t +:+ String.rev s.
Proof.
  induction s as [|c s IH].
  - by rewrite append_nil_l, append_nil_r.
  - by rewrite append_cons, !rev_cons, IH, append_assoc.
Qed.

Lemma rev_involutive (s : string) : String.rev (String.rev s) = s.
Proof.
  induction s as [|c s IH]; [done|]. by rewrite rev_cons, rev_append, IH.
Qed.

Lemma LF_free_append (s t : string) :
  LF_free (s +:+ t) = LF_free s && LF_free t.
Proof.
  induction s as [|c s IH]; [done|]. rewrite append_cons. simpl.
  by rewrite IH, andb_assoc.
Qed.

Lemma LF_free_rev (s : string) : LF_free (String.rev s) = LF_free s.
Proof.
  induction s as [|c s IH]; [done|]. rewrite rev_cons, LF_free_append, IH.
  simpl. by rewrite andb_true_r, andb_comm.
Qed.

(** [lstrip] *)

Lemma lstrip_starts_clean (s : string) : starts_clean (lstrip s) = true.
Proof.
  induction s as [|c s IH]; [done|]. simpl.
  destruct (py_isspace c) eqn:Hc; [done|]. simpl. by rewrite Hc.
Qed.

Lemma lstrip_clean (s : string) : starts_clean s = true → lstrip s = s.
Proof.
  destruct s as [|c s]; [done|]. simpl. by destruct (py_isspace c).
Qed.

Lemma lstrip_LF_free (s : string) : LF_free s = true → LF_free (lstrip s) = true.
Proof.
  induction s as [|c s IH]; [done|]. simpl. intros Hs.
  destruct (py_isspace c); [|done]. apply IH.
  by apply andb_true_iff in Hs as [_ ?].
Qed.

(** White space is skipped up to a character that is none. *)
Lemma lstrip_snoc (s : string) (c : ascii) :
  py_isspace c = false →
  lstrip (s +:+ String c "") = lstrip s +:+ String c "".
Proof.
  intros Hc. induction s as [|a s IH].
  - simpl. by rewrite Hc.
  - rewrite append_cons. simpl. by destruct (py_isspace a).
Qed.

(** [rstrip] and [strip] *)

Lemma rstrip_ends_clean (s : string) : ends_clean (rstrip s) = true.
Proof.
  unfold ends_clean, rstrip. rewrite rev_involutive.
  apply lstrip_starts_clean.
Qed.

Lemma rstrip_clean (s : string) : ends_clean s = true → rstrip s = s.
Proof.
  unfold ends_clean, rstrip. intros Hs.
  by rewrite lstrip_clean, rev_involutive.
Qed.

Lemma rstrip_LF_free (s : string) : LF_free s = true → LF_free (rstrip s) = true.
Proof.
  intros Hs. unfold rstrip. rewrite LF_free_rev. apply lstrip_LF_free.
  by rewrite LF_free_rev.
Qed.

Lemma rstrip_starts_clean (s : string) :
  starts_clean s = true → starts_clean (rstrip s) = true.
Proof.
  destruct s as [|c s]; [done|]. simpl. intros Hc.
  apply negb_true_iff in Hc. unfold rstrip.
  rewrite rev_cons, lstrip_snoc by done. rewrite rev_append.
  change (String.rev (String c "")) with (String c "").
  rewrite append_cons. simpl. by rewrite Hc.
Qed.

Lemma strip_shape (s : string) :
  starts_clean (strip s) = true ∧ ends_clean (strip s) = true.
Proof.
  unfold strip. split.
  - apply rstrip_starts_clean, lstrip_starts_clean.
  - apply rstrip_ends_clean.
Qed.

Lemma strip_clean (s : string) :
  starts_clean s = true → ends_clean s = true → strip s = s.
Proof.
  intros Hstart Hend. unfold strip. by rewrite lstrip_clean, rstrip_clean.
Qed.

Lemma strip_idempotent (s : string) : strip (strip s) = strip s.
Proof. destruct (strip_shape s). by apply strip_clean. Qed.

Lemma strip_LF_free (s : string) : LF_free s = true → LF_free (strip s) = true.
Proof. intros Hs. by apply rstrip_LF_free, lstrip_LF_free. Qed.

(** Splitting *)

Lemma split_newline_nonempty (s : string) : split_newline s ≠ [].
Proof.
  induction s as [|c s IH]; [done|]. simpl.
  destruct (decide (c = LF)); [done|]. by destruct (split_newline s).
Qed.

Lemma split_newline_app (s t : string) :
  split_newline (s +:+ String LF t) = split_newline s ++ split_newline t.
Proof.
  induction s as [|c s IH].
  - rewrite append_nil_l. by simpl.
  - rewrite append_cons. simpl. rewrite IH.
    destruct (decide (c = LF)); [done|].
    pose proof (split_newline_nonempty s).
    by destruct (split_newline s).
Qed.

Lemma split_newline_LF_free (s : string) :
  Forall (λ line, LF_free line = true) (split_newline s).
Proof.
  induction s as [|c s IH]; [by repeat constructor|]. simpl.
  destruct (decide (c = LF)) as [|Hc]; [by constructor|].
  destruct (split_newline s) as [|l ls].
  { constructor; [|constructor]. simpl. by rewrite bool_decide_eq_false_2. }
  apply Forall_cons in IH as [Hl Hls]. constructor; [|done]. simpl.
  by rewrite bool_decide_eq_false_2, Hl.
Qed.

Lemma split_newline_one_line (s : string) :
  LF_free s = true → split_newline s = [s].
Proof.
  induction s as [|c s IH]; [done|]. simpl. intros Hs.
  apply andb_true_iff in Hs as [Hc Hs].
  apply negb_true_iff, bool_decide_eq_false in Hc.
  rewrite decide_False by done. by rewrite IH.
Qed.

(** Joining lines with newlines and splitting again gives the lines. *)
Lemma split_newline_concat (l : string) (ls : list string) :
  Forall (λ line, LF_free line = true) (l :: ls) →
  split_newline (String.concat newline (l :: ls)) = l :: ls.
Proof.
  revert l. induction ls as [|l2 ls IH]; intros l Hall.
  - apply split_newline_one_line. by apply Forall_cons in Hall as [? _].
  - apply Forall_cons in Hall as [Hl Hall].
    change (String.concat newline (l :: l2 :: ls))
      with (l +:+ newline +:+ String.concat newline (l2 :: ls)).
    unfold newline at 1. rewrite append_cons, append_nil_l.
    rewrite split_newline_app, split_newline_one_line by done.
    by rewrite IH.
Qed.

(** ** Parsing the output of [ps] *)

Lemma parse_ps_line_shape resp line :
  line ∈ parse_ps resp →
  line ≠ "" ∧ strip line = line ∧ LF_free line = true.
Proof.
  unfold parse_ps. rewrite list_elem_of_omap.
  intros (raw & Hraw & Hline).
  destruct (nonempty (strip raw)) eqn:Hne; [|done].
  injection Hline as <-. split; [|split].
  - unfold nonempty in Hne. apply negb_true_iff, bool_decide_eq_false in Hne.
    done.
  - apply strip_idempotent.
  - apply strip_LF_free.
    pose proof (split_newline_LF_free resp) as Hall.
    rewrite Forall_forall in Hall. by apply Hall.
Qed.

(** Lines of that shape are what parsing them again gives. *)
Lemma parse_ps_lines_fixed (lines : list string) :
  Forall (λ line, line ≠ "" ∧ strip line = line) lines →
  omap (λ line, if nonempty (strip line) then Some (strip line) else None)
    lines = lines.
Proof.
  set (f := λ line, if nonempty (strip line) then Some (strip line) else None).
  induction 1 as [|line lines [Hne Hstrip] _ IH]; [done|].
  change (omap f (line :: lines))
    with (match f line with
          | Some y => y :: omap f lines
          | None => omap f lines
          end).
  rewrite IH. unfold f, nonempty. rewrite Hstrip.
  by rewrite bool_decide_eq_false_2.
Qed.

(** X8. Every line [parse_ps] returns is non-empty, has no white space at
    either end, holds no newline and is left unchanged by [strip]. *)
Theorem parse_ps_lines (resp : string) :
  Forall (λ line,
            line ≠ "" ∧ strip line = line ∧ starts_clean line = true
            ∧ ends_clean line = true ∧ LF_free line = true)
    (parse_ps resp).
Proof.
  apply Forall_forall. intros line Hline.
  destruct (parse_ps_line_shape resp line Hline) as (Hne & Hstrip & HLF).
  destruct (strip_shape line) as [Hstart Hend]. rewrite Hstrip in *.
  done.
Qed.

(** X9. [parse_ps] works line by line: the lines of two texts joined by a
    newline are the lines of the first followed by those of the second; an
    empty text, blank lines and a final newline contribute nothing. *)
Theorem parse_ps_concatenation (s t : string) :
  parse_ps (s +:+ newline +:+ t) = parse_ps s ++ parse_ps t
  ∧ parse_ps "" = []
  ∧ parse_ps (s +:+ newline) = parse_ps s
  ∧ parse_ps (s +:+ newline +:+ newline +:+ t) = parse_ps s ++ parse_ps t.
Proof.
  assert (∀ a b, parse_ps (a +:+ newline +:+ b) = parse_ps a ++ parse_ps b)
    as Happ.
  { intros a b. unfold parse_ps, newline.
    rewrite append_cons, append_nil_l, split_newline_app.
    apply omap_app. }
  split; [apply Happ|]. split; [done|]. split.
  - rewrite <- (append_nil_r (s +:+ newline)), append_assoc, Happ.
    apply app_nil_r.
  - by rewrite !Happ.
Qed.

(** X10. The [processes] cell of an exported snapshot parses back to the lines
    of the snapshot. *)
Theorem processes_cell_round_trip pod c (resp : string) :
  parse_ps
    (csv_field
       (flatten_value
          (dict_get (process_snapshot pod c (parse_ps resp)) "processes")))
  = parse_ps resp.
Proof.
  assert (dict_get (process_snapshot pod c (parse_ps resp)) "processes"
          = Some (VList (AStr <$> parse_ps resp))) as -> by done.
  simpl. rewrite <- list_fmap_compose.
  assert (py_str ∘ AStr <$> parse_ps resp = parse_ps resp) as ->.
  { clear. induction (parse_ps resp) as [|l ls IH]; [done|].
    rewrite fmap_cons. by f_equal. }
  assert (Forall (λ line, line ≠ "" ∧ strip line = line ∧ LF_free line = true)
            (parse_ps resp)) as Hall.
  { apply Forall_forall. apply parse_ps_line_shape. }
  destruct (parse_ps resp) as [|l ls]; [done|].
  unfold parse_ps at 1. rewrite split_newline_concat.
  - apply parse_ps_lines_fixed. eapply Forall_impl; [exact Hall|].
    by intros line (?&?&?).
  - eapply Forall_impl; [exact Hall|]. by intros line (?&?&?).
Qed.

(** ** More on the exporter *)

Section ExporterFacts.
Context {W : Type} `{ControlPlane W}.

Lemma last_write_snoc output_dir p data entry :
  last_write output_dir p (data ++ [entry])
  = if writes_to output_dir p entry then Some (csv_table entry.2)
    else last_write output_dir p data.
Proof. unfold last_write. by rewrite foldl_app. Qed.

(** What a path holds after the loop: the table of the last category that
    writes to it, and what it held before when none does. *)
Lemma exported_files_lookup output_dir data (fs : gmap string table) p :
  exported_files output_dir data fs !! p
  = match last_write output_dir p data with
    | Some t => Some t
    | None => fs !! p
    end.
Proof.
  induction data as [|[key items] data IH] using rev_ind; [done|].
  rewrite exported_files_app, last_write_snoc, exported_files_cons.
  unfold writes_to. simpl.
  destruct items as [|first rest]; [exact IH|].
  case_bool_decide as Hp.
  - rewrite <- Hp. apply lookup_insert_eq.
  - by rewrite lookup_insert_ne.
Qed.


(** X12. Exporting the same mapping again changes neither the files nor the
    directories: files are rewritten, never appended to. *)
Theorem export_csv_idempotent data output_dir (st : state W) :
  files (export_csv data output_dir (export_csv data output_dir st).2).2
  = files (export_csv data output_dir st).2
  ∧ dirs (export_csv data output_dir (export_csv data output_dir st).2).2
    = dirs (export_csv data output_dir st).2.
Proof.
  rewrite !export_csv_run. simpl. split.
  - apply map_eq. intros p. rewrite !exported_files_lookup.
    by destruct (last_write output_dir p data).
  - apply set_eq. intros d. rewrite !elem_of_union. tauto.
Qed.
End ExporterFacts.

(** ** Connecting *)

Section Connecting.
Context {W : Type} `{ControlPlane W}.

(** X13. [_connect] tries the in-cluster configuration first and the kubeconfig
    only when that raises [ConfigException]; any other error of the
    in-cluster configuration ends the attempt without the kubeconfig being
    tried.  A failure is always the collector's [ConnectionError], with the
    text of the last error. *)
Theorem connect_fallback (st : state W) :
  (∀ w1,
     load_incluster_config (world st) = (Ok (), w1) →
     _connect st = (Ok (), logged LoadInclusterConfig w1 st))
  ∧ (∀ e1 w1 w2,
       load_incluster_config (world st) = (Raise e1, w1) →
       exn_cls e1 = ConfigException →
       load_kube_config w1 = (Ok (), w2) →
       _connect st
       = (Ok (), logged LoadKubeConfig w2 (logged LoadInclusterConfig w1 st)))
  ∧ (∀ e1 w1 e2 w2,
       load_incluster_config (world st) = (Raise e1, w1) →
       exn_cls e1 = ConfigException →
       load_kube_config w1 = (Raise e2, w2) →
       _connect st
       = (Raise (Exn collector_ConnectionError
                   ("Failed to connect to Kubernetes cluster: "
                    +:+ exn_str e2)),
          logged LoadKubeConfig w2 (logged LoadInclusterConfig w1 st)))
  ∧ (∀ e1 w1,
       load_incluster_config (world st) = (Raise e1, w1) →
       exn_cls e1 ≠ ConfigException →
       _connect st
       = (Raise (Exn collector_ConnectionError
                   ("Failed to connect to Kubernetes cluster: "
                    +:+ exn_str e1)),
          logged LoadInclusterConfig w1 st)).
Proof.
  repeat split.
  - intros w1 Hin. unfold _connect, try_except, bind.
    by rewrite (api_call_ok _ _ _ _ _ Hin).
  - intros e1 w1 w2 Hin Hcls Hkube. unfold _connect, try_except, bind.
    rewrite (api_call_ok _ _ _ _ _ Hin). simpl.
    rewrite bool_decide_eq_true_2 by done.
    by erewrite api_call_ok; [|exact Hkube].
  - intros e1 w1 e2 w2 Hin Hcls Hkube. unfold _connect, try_except, bind.
    rewrite (api_call_ok _ _ _ _ _ Hin). simpl.
    rewrite bool_decide_eq_true_2 by done.
    by erewrite api_call_ok; [|exact Hkube].
  - intros e1 w1 Hin Hcls. unfold _connect, try_except, bind.
    rewrite (api_call_ok _ _ _ _ _ Hin). simpl.
    by rewrite bool_decide_eq_false_2.
Qed.

Lemma connect_config_calls :
  keeps (calls_more (λ c, is_config_call c = true)) (_connect (W:=W)).
Proof.
  unfold _connect.
  keeps_with (api_call_calls_more (W:=W) (λ c, is_config_call c = true));
    done.
Qed.
End Connecting.

Lemma connect_fallback_witness :
  _connect (init_state Sample.unreachable)
  = (Raise (Exn collector_ConnectionError
              "Failed to connect to Kubernetes cluster: Invalid kube-config file."),
     logged LoadKubeConfig Sample.unreachable
       (logged LoadInclusterConfig Sample.unreachable
          (init_state Sample.unreachable))).
Proof.
  destruct (connect_fallback (init_state Sample.unreachable))
    as (_ & _ & Hboth & _).
  apply (Hboth (Exn ConfigException "Service host/port is not set.")
           Sample.unreachable
           (Exn ConfigException "Invalid kube-config file.")
           Sample.unreachable); reflexivity.
Defined.

(** ** Rules for raising and returning *)

Section RaiseReturn.
Context {W : Type}.

Lemma keeps_weaken {A} (R1 R2 : relation (state W)) (m : M W A) :
  (∀ st st', R1 st st' → R2 st st') → keeps R1 m → keeps R2 m.
Proof. intros Hsub Hm st r st' Hrun. by eapply Hsub, Hm. Qed.

Lemma keeps_bind_returns {A B} (R : relation (state W)) `{!PreOrder R}
    (P : A → Prop) (m : M W A) (k : A → M W B) :
  keeps R m → returns_with (λ a _, P a) m → (∀ a, P a → keeps R (k a)) →
  keeps R (bind m k).
Proof.
  intros Hm HP Hk st r st'. unfold bind.
  destruct (m st) as [[a|e] st1] eqn:Hrun.
  - intros Hrest. etrans; [by eapply Hm|].
    eapply Hk; [|done]. by eapply HP.
  - intros [= _ <-]. by eapply Hm.
Qed.





Lemma returns_with_ret {A} (Q : A → state W → Prop) (a : A) :
  (∀ st, Q a st) → returns_with Q (ret a).
Proof. intros HQ st a' st' [= <- <-]. apply HQ. Qed.

Lemma returns_with_bind {A B} (Q : B → state W → Prop) (m : M W A)
    (k : A → M W B) :
  (∀ a, returns_with Q (k a)) → returns_with Q (bind m k).
Proof.
  intros Hk st b st'. unfold bind.
  destruct (m st) as [[a|e] st1]; [|done]. apply Hk.
Qed.
End RaiseReturn.

(** ** The whole run *)

Section WholeRun.
Context {W : Type} `{ControlPlane W}.


Lemma export_csv_same_cluster data output_dir :
  keeps same_cluster (export_csv (W:=W) data output_dir).
Proof. intros st r st'. rewrite export_csv_run. by intros [= _ <-]. Qed.

Lemma export_csv_outside data output_dir paths :
  (∀ key, key ∈ keys data → csv_path output_dir key ∈ paths) →
  keeps (files_outside paths) (export_csv (W:=W) data output_dir).
Proof.
  intros Hkeys st r st'. rewrite export_csv_run. intros [= _ <-] p Hp. simpl.
  apply exported_files_untouched.
  apply Forall_forall. intros [key items] Hin. unfold writes_to. simpl.
  destruct items as [|first rest]; [done|].
  apply bool_decide_eq_false. intros <-. apply Hp, Hkeys.
  unfold keys. apply list_elem_of_fmap. by exists (key, first :: rest).
Qed.



(** The collectors, for the frame conditions of a whole run. *)
Lemma collectors_same_files :
  keeps same_files (_connect (W:=W))
  ∧ keeps same_files (collect_nodes (W:=W))
  ∧ keeps same_files (collect_pods (W:=W))
  ∧ keeps same_files (collect_containers (W:=W))
  ∧ keeps same_files (collect_all_processes (W:=W)).
Proof.
  repeat match goal with |- _ ∧ _ => split end;
    (eapply keeps_weaken; [apply @same_store_files|]).
  - apply connect_same_store.
  - apply collect_nodes_same_store.
  - apply collect_pods_same_store.
  - apply collect_containers_same_store.
  - apply collect_all_processes_same_store.
Qed.

Lemma collectors_no_pod_call :
  keeps (calls_more (λ c, is_pod_call c = false)) (_connect (W:=W))
  ∧ keeps (calls_more (λ c, is_pod_call c = false)) (collect_nodes (W:=W))
  ∧ keeps (calls_more (λ c, is_pod_call c = false)) (collect_pods (W:=W))
  ∧ keeps (calls_more (λ c, is_pod_call c = false))
      (collect_containers (W:=W)).
Proof.
  repeat match goal with |- _ ∧ _ => split end;
    [unfold _connect|unfold collect_nodes, node_record|unfold collect_pods
    |unfold collect_containers];
    keeps_with (api_call_calls_more (W:=W) (λ c, is_pod_call c = false));
    done.
Qed.

Lemma same_cluster_calls_more P (st st' : state W) :
  same_cluster st st' → calls_more P st st'.
Proof. intros [_ Hcalls]. exists []. by rewrite app_nil_r. Qed.
End WholeRun.

Section MainRun.
Context {W : Type} `{ControlPlane W}.




End MainRun.

(** Walks through [main]: atomic steps are closed by the facts in the
    context, the optional process collection is split into its two cases. *)
Ltac walk_main :=
  repeat first
    [ assumption
    | match goal with
      | Hp : ∀ s t, keeps _ (print s t) |- keeps _ (print _ _) => apply Hp
      | He : ∀ d o, keeps _ (export_csv d o) |- keeps _ (export_csv _ _) =>
          apply He
      | He : ∀ d, _ → keeps _ (export_csv d _) |- keeps _ (export_csv _ _) =>
          apply He; assumption
      | |- keeps ?R (bind (if ?b then _ else _) _) =>
          apply (keeps_bind_returns R (λ d, keys d = category_names b))
      | |- PreOrder _ => apply _
      | |- keeps _ (ret _) => apply keeps_ret
      | |- keeps _ (if ?b then _ else _) => destruct b
      | |- returns_with _ (if ?b then _ else _) => destruct b
      | |- returns_with _ (ret _) =>
          apply returns_with_ret; intros; reflexivity
      | |- returns_with _ (bind _ _) => apply returns_with_bind; intros ?
      | |- keeps _ (try_except _ _) => apply keeps_try_except
      | |- Forall _ (_ :: _) => apply Forall_cons_2
      | |- Forall _ [] => apply Forall_nil_2
      | |- keeps _ (bind _ _) => apply keeps_bind
      end
    | progress intros
    | progress cbn [snd] ].

Section MainFootprint.
Context {W : Type} `{ControlPlane W}.

(** X15. With [--include-processes] off, [main] neither reads a single pod nor
    execs into a container, whatever the cluster answers. *)
Theorem main_without_processes args (st : state W) :
  include_processes args = false →
  calls_more (λ c, is_pod_call c = false) st (main args st).2.
Proof.
  intros Hoff. apply keeps_final.
  destruct (collectors_no_pod_call (W:=W))
    as (Hconn & Hnodes & Hpods & Hcont).
  assert (∀ s t, keeps (calls_more (λ c, is_pod_call c = false))
                   (print (W:=W) s t)) as Hprint.
  { intros s t. eapply keeps_weaken; [apply same_cluster_calls_more|].
    apply print_same_cluster. }
  assert (∀ d o, keeps (calls_more (λ c, is_pod_call c = false))
                   (export_csv (W:=W) d o)) as Hexport.
  { intros d o. eapply keeps_weaken; [apply same_cluster_calls_more|].
    apply export_csv_same_cluster. }
  unfold main, main_body, connection_failure_handler,
    generic_failure_handler.
  rewrite Hoff. walk_main.
Qed.

(** X16. [main] touches no file besides the files of its categories in the
    output directory: [nodes.csv], [pods.csv], [containers.csv] and, with
    [--include-processes], [processes.csv]. *)
Theorem main_files_outside args (st : state W) :
  files_outside
    (category_paths (output_dir args) (include_processes args))
    st (main args st).2.
Proof.
  apply keeps_final.
  set (paths := category_paths (output_dir args) (include_processes args)).
  destruct (collectors_same_files (W:=W))
    as (Hconn & Hnodes & Hpods & Hcont & Hprocs).
  eapply keeps_weaken in Hconn; [|apply (same_files_outside paths)].
  eapply keeps_weaken in Hnodes; [|apply (same_files_outside paths)].
  eapply keeps_weaken in Hpods; [|apply (same_files_outside paths)].
  eapply keeps_weaken in Hcont; [|apply (same_files_outside paths)].
  eapply keeps_weaken in Hprocs; [|apply (same_files_outside paths)].
  assert (∀ s t, keeps (files_outside paths) (print (W:=W) s t)) as Hprint.
  { intros s t. eapply keeps_weaken; [apply (same_files_outside paths)|].
    apply print_same_files. }
  assert (∀ d, keys d = category_names (include_processes args) →
               keeps (files_outside paths)
                 (export_csv (W:=W) d (output_dir args))) as Hexport.
  { intros d Hkeys. apply export_csv_outside. intros key Hkey.
    rewrite Hkeys in Hkey. unfold paths, category_paths.
    by apply list_elem_of_fmap_2. }
  unfold main, main_body, connection_failure_handler,
    generic_failure_handler.
  walk_main.
Qed.
End MainFootprint.

Section MainConnect.
Context {W : Type} `{ControlPlane W}.

(** X17. Whenever connecting fails, on any cluster, [main] ends with status 1
    through the generic handler: after the first progress line it prints
    the error line only, without the guidance on credentials; it has made
    no call besides loading credentials and has touched no file. *)
Theorem main_connect_failure_run args (st : state W) e st1 :
  _connect (print Stdout "Connecting to Kubernetes cluster..." st).2
  = (Raise e, st1) →
  main args st
  = (Ok 1%Z,
     State (world st1) (calls st1) (dirs st) (files st)
       (output st
        ++ [(Stdout, "Connecting to Kubernetes cluster...");
            (Stderr, "Error: " +:+ exn_str e)]))
  ∧ exn_cls e = collector_ConnectionError
  ∧ calls_more (λ c, is_config_call c = true) st st1.
Proof.
  intros Hconn. split; [|split].
  - rewrite (main_connect_failure args st e st1 Hconn).
    destruct (connect_same_store _ _ _ Hconn) as (Hdirs & Hfiles & Hout).
    unfold generic_failure_handler, bind, print, ret. simpl in *.
    by rewrite Hdirs, Hfiles, Hout, <- app_assoc.
  - by eapply connect_raises_collector_error.
  - destruct (connect_config_calls _ _ _ Hconn) as (cs & Hcalls & Hcs).
    exists cs. by split.
Qed.

(** X18. No collector writes a file, creates a directory or prints: all they
    change is the cluster and the log of calls. *)
Theorem collectors_leave_store (st : state W) :
  same_store st (_connect st).2
  ∧ same_store st (collect_nodes st).2
  ∧ same_store st (collect_pods st).2
  ∧ same_store st (collect_containers st).2
  ∧ same_store st (collect_all_processes st).2.
Proof.
  repeat match goal with |- _ ∧ _ => split end; apply keeps_final.
  - apply connect_same_store.
  - apply collect_nodes_same_store.
  - apply collect_pods_same_store.
  - apply collect_containers_same_store.
  - apply collect_all_processes_same_store.
Qed.
End MainConnect.

Lemma main_connect_failure_run_witness :
  main {| output_dir := "output"; include_processes := true |}
    (init_state Sample.unreachable)
  = (Ok 1%Z,
     State Sample.unreachable [LoadInclusterConfig; LoadKubeConfig] ∅ ∅
       [(Stdout, "Connecting to Kubernetes cluster...");
        (Stderr,
         "Error: Failed to connect to Kubernetes cluster: Invalid kube-config file.")]).
Proof.
  pose proof (main_connect_failure_run
                {| output_dir := "output"; include_processes := true |}
                (init_state Sample.unreachable)
                (Exn collector_ConnectionError
                   "Failed to connect to Kubernetes cluster: Invalid kube-config file.")
                (State Sample.unreachable
                   [LoadInclusterConfig; LoadKubeConfig] ∅ ∅
                   [(Stdout, "Connecting to Kubernetes cluster...")]))
    as Hthm.
  destruct Hthm as (Hrun & _); [reflexivity|exact Hrun].
Defined.

Lemma main_without_processes_witness :
  calls_more (λ c, is_pod_call c = false) (init_state Sample.cluster)
    (main {| output_dir := "out"; include_processes := false |}
       (init_state Sample.cluster)).2.
Proof.
  apply (main_without_processes
           {| output_dir := "out"; include_processes := false |}
           (init_state Sample.cluster)).
  reflexivity.
Defined.

Section NoContainers.
Context {W : Type} `{ControlPlane W}.

(** X19. On a pod without spec, without container list or with an empty
    one, [collect_processes] returns the empty list right after the read,
    whatever the phase and whatever container was asked for: no exec. *)
Theorem collect_processes_no_container pod_name namespace asked
    (st : state W) pod w' :
  read_namespaced_pod pod_name namespace (world st) = (Ok pod, w') →
  pod_spec pod = None
  ∨ (∃ spec, pod_spec pod = Some spec
             ∧ (spec_containers spec = None
                ∨ spec_containers spec = Some [])) →
  collect_processes pod_name namespace asked st
  = (Ok [], logged (ReadNamespacedPod pod_name namespace) w' st).
Proof.
  intros Hread Hnone.
  assert (declared_containers pod = []) as Hcs.
  { unfold declared_containers.
    destruct Hnone as [->|(spec & -> & [->| ->])]; done. }
  rewrite collect_processes_catches. unfold collect_processes_body, bind.
  by rewrite (api_call_ok _ _ _ _ _ Hread), Hcs.
Qed.
End NoContainers.

Lemma collect_processes_no_container_witness :
  collect_processes (Some "bare") (Some "default") (Some "app")
    (init_state
       {| sc_incluster := Ok (); sc_kubeconfig := Ok ();
          sc_nodes := Ok []; sc_pods := Ok [Sample.bare];
          sc_read := λ _ _, Ok Sample.bare;
          sc_exec := λ _ _ _ _, Ok Sample.ps_output |})
  = (Ok [],
     logged (ReadNamespacedPod (Some "bare") (Some "default"))
       {| sc_incluster := Ok (); sc_kubeconfig := Ok ();
          sc_nodes := Ok []; sc_pods := Ok [Sample.bare];
          sc_read := λ _ _, Ok Sample.bare;
          sc_exec := λ _ _ _ _, Ok Sample.ps_output |}
       (init_state
          {| sc_incluster := Ok (); sc_kubeconfig := Ok ();
             sc_nodes := Ok []; sc_pods := Ok [Sample.bare];
             sc_read := λ _ _, Ok Sample.bare;
             sc_exec := λ _ _ _ _, Ok Sample.ps_output |})).
Proof.
  eapply (collect_processes_no_container (Some "bare") (Some "default")
            (Some "app") _ Sample.bare).
  - reflexivity.
  - by left.
Defined.
